(** * wink-rtsp-bench: RTP loss accounting, RTSP media path and load control

    A shallow embedding of the parts of the benchmark that decide its
    loss figures and its load targets:

    - [Rtp]   : internal/rtp/seq.go  (SeqTracker, Aggregator, Snapshot)
    - [Rtsp]  : internal/rtsp client (readInterleavedFrame, processRTPPacket,
                reportStats, the receive loops; Close and the requests
                under the client's mutex; extractHeader and the session id)
    - [Bench] : internal/bench       (NewRunner, runConnection's retry loop
                and latency bookkeeping, RealWorldSimulator)

    Go's fixed-width integers are integers of [Z] with the wrap-around
    written out; float64 is Rocq's primitive binary64. *)

From Stdlib Require Import ZArith List Bool Lia.
From Stdlib.Strings Require Import Byte.
From Stdlib Require Import Floats.
Import ListNotations.

Set Warnings "-inexact-float".

Local Open Scope Z_scope.

(** ** Machine arithmetic *)

Definition wrap16 (z : Z) : Z := z mod 0x10000.
Definition wrap32 (z : Z) : Z := z mod 0x100000000.
Definition wrap64 (z : Z) : Z := z mod 0x10000000000000000.

Definition minInt64 : Z := - 0x8000000000000000.
Definition maxInt64 : Z := 0x7FFFFFFFFFFFFFFF.

(** int64 arithmetic: two's complement wrap-around. *)
Definition wrapInt64 (z : Z) : Z :=
  (z + 0x8000000000000000) mod 0x10000000000000000 - 0x8000000000000000.

(** [float64(n)] for an integer [n]: the nearest binary64, ties to even. *)
Definition float64_of_Z (z : Z) : float :=
  SF2Prim (SpecFloat.binary_normalize prec emax z 0 false).

(** [int64(f)] for a float64 [f]: the fraction is dropped (truncation toward
    zero). For a NaN, an infinity or a value outside int64 the Go
    specification leaves the result to the implementation; amd64's
    CVTTSD2SQ gives the smallest int64, which is what is written here. *)
Definition int64_of_float64 (f : float) : Z :=
  match Prim2SF f with
  | SpecFloat.S754_zero _ => 0
  | SpecFloat.S754_finite sgn m e =>
      let mag := if 0 <=? e then Z.shiftl (Z.pos m) e
                 else Z.shiftr (Z.pos m) (- e) in
      let v := if sgn then - mag else mag in
      if (minInt64 <=? v) && (v <=? maxInt64) then v else minInt64
  | _ => minInt64
  end.

(** ** internal/rtp *)

Module Rtp.

(** [SeqTracker] of seq.go; the mutex is left out (a tracker is only used
    from its own session). *)
Record SeqTracker : Type := mkSeqTracker {
  initialized : bool;
  lastSeq     : Z;   (* uint16 *)
  totalLost   : Z;   (* uint64 *)
  totalPkts   : Z;   (* uint64 *)
  cycles      : Z;   (* uint32 *)
  maxSeq      : Z;   (* uint32 *)
  baseSeq     : Z;   (* uint32 *)
  badSeq      : Z;   (* uint32 *)
  probation   : Z    (* int *)
}.

Definition NewSeqTracker : SeqTracker :=
  mkSeqTracker false 0 0 0 0 0 0 0 0.

Definition set_lastSeq (v : Z) (s : SeqTracker) : SeqTracker :=
  mkSeqTracker (initialized s) v (totalLost s) (totalPkts s) (cycles s)
               (maxSeq s) (baseSeq s) (badSeq s) (probation s).

Definition set_totalLost (v : Z) (s : SeqTracker) : SeqTracker :=
  mkSeqTracker (initialized s) (lastSeq s) v (totalPkts s) (cycles s)
               (maxSeq s) (baseSeq s) (badSeq s) (probation s).

Definition set_totalPkts (v : Z) (s : SeqTracker) : SeqTracker :=
  mkSeqTracker (initialized s) (lastSeq s) (totalLost s) v (cycles s)
               (maxSeq s) (baseSeq s) (badSeq s) (probation s).

Definition set_cycles (v : Z) (s : SeqTracker) : SeqTracker :=
  mkSeqTracker (initialized s) (lastSeq s) (totalLost s) (totalPkts s) v
               (maxSeq s) (baseSeq s) (badSeq s) (probation s).

Definition set_maxSeq (v : Z) (s : SeqTracker) : SeqTracker :=
  mkSeqTracker (initialized s) (lastSeq s) (totalLost s) (totalPkts s)
               (cycles s) v (baseSeq s) (badSeq s) (probation s).

(** [s.cycles<<16 | uint32(seq)] on uint32. *)
Definition extendSeq (cyc seq : Z) : Z :=
  Z.lor (wrap32 (Z.shiftl cyc 16)) seq.

(** [initSequence]. *)
Definition initSequence (s : SeqTracker) (seq : Z) : SeqTracker :=
  mkSeqTracker true seq (totalLost s) 1 0 seq seq (wrap32 (seq + 1))
               (probation s).

(** [updateSequence]: the tracker after the call and the loss returned.
    The last two assignments of the Go function ([s.lastSeq = seq],
    [s.totalPkts++]) are outside every branch. *)
Definition updateSequence (s : SeqTracker) (seq : Z) : SeqTracker * Z :=
  let udelta := wrap16 (seq - lastSeq s) in
  let '(s1, lost) :=
    if udelta <? 0x8000 then
      if 0 <? udelta then
        let '(sa, lost) :=
          if 1 <? udelta
          then (set_totalLost (wrap64 (totalLost s + (udelta - 1))) s,
                udelta - 1)
          else (s, 0) in
        let sb :=
          if seq <? lastSeq s
          then set_cycles (wrap32 (cycles sa + 1)) sa
          else sa in
        (set_maxSeq (extendSeq (cycles sb) seq) sb, lost)
      else (s, 0)
    else
      if wrap16 (lastSeq s - seq) <? 0x8000 then (s, 0)
      else
        let sa := set_cycles (wrap32 (cycles s + 1)) s in
        let sb := set_maxSeq (extendSeq (cycles sa) seq) sa in
        let actualDelta := wrap32 ((0x10000 - lastSeq s) + seq) in
        if 1 <? actualDelta
        then (set_totalLost (wrap64 (totalLost sb + (actualDelta - 1))) sb,
              actualDelta - 1)
        else (sb, 0) in
  (set_totalPkts (wrap64 (totalPkts s1 + 1)) (set_lastSeq seq s1), lost).

(** [Push]. *)
Definition Push (s : SeqTracker) (seq : Z) : SeqTracker * Z :=
  if initialized s then updateSequence s seq
  else (initSequence s seq, 0).

(** One more packet counted, nothing else changed. *)
Definition countPacket (s : SeqTracker) : SeqTracker :=
  set_totalPkts (wrap64 (totalPkts s + 1)) s.

(** A stream of sequence numbers pushed in order. *)
Definition pushAll (seqs : list Z) (s : SeqTracker) : SeqTracker :=
  fold_left (fun t q => fst (Push t q)) seqs s.

Record Stats : Type := mkStats {
  Packets : Z;
  Lost    : Z;
  LastSeq : Z;
  Cycles  : Z
}.

Definition GetStats (s : SeqTracker) : Stats :=
  mkStats (totalPkts s) (totalLost s) (lastSeq s) (cycles s).

(** [Aggregator]: three atomic uint64 counters. *)
Record Aggregator : Type := mkAggregator {
  packets : Z;
  lost    : Z;
  bytes   : Z
}.

Definition NewAggregator : Aggregator := mkAggregator 0 0 0.

Definition AddPackets (n : Z) (a : Aggregator) : Aggregator :=
  if 0 <? n then mkAggregator (wrap64 (packets a + n)) (lost a) (bytes a)
  else a.

Definition AddLoss (n : Z) (a : Aggregator) : Aggregator :=
  if 0 <? n then mkAggregator (packets a) (wrap64 (lost a + n)) (bytes a)
  else a.

Definition AddBytes (n : Z) (a : Aggregator) : Aggregator :=
  if 0 <? n then mkAggregator (packets a) (lost a) (wrap64 (bytes a + n))
  else a.

Record Snapshot : Type := mkSnapshot {
  snapPackets : Z;
  snapLost    : Z;
  snapBytes   : Z
}.

Definition TakeSnapshot (a : Aggregator) : Snapshot :=
  mkSnapshot (packets a) (lost a) (bytes a).


(** [Snapshot.LossRate]: "the packet loss rate as a percentage". The sum is
    a uint64 sum. *)
Definition LossRate (s : Snapshot) : float :=
  let total := wrap64 (snapPackets s + snapLost s) in
  if total =? 0 then 0%float
  else (float64_of_Z (snapLost s) * 100 / float64_of_Z total)%float.

(** A stream that only moves forward: after [q], each next number is the
    previous one plus the next step of [ds], on 16 bits. *)
Fixpoint forwardFrom (q : Z) (ds : list Z) : list Z :=
  match ds with
  | [] => []
  | d :: rest => wrap16 (q + d) :: forwardFrom (wrap16 (q + d)) rest
  end.

Definition sumZ (l : list Z) : Z := fold_right Z.add 0 l.

(** The counters of a tracker within their machine ranges. *)
Definition inRange (s : SeqTracker) : Prop :=
  0 <= totalLost s < 0x10000000000000000
  /\ 0 <= totalPkts s < 0x10000000000000000
  /\ 0 <= cycles s < 0x100000000.

End Rtp.

(** ** internal/rtsp: the media path of [Client] *)

Module Rtsp.

Import Rtp.

(** *** The buffered reader over the control connection

    The connection is the list of bytes still to arrive. A read that runs
    out of bytes is the reader's error ([io.EOF], [io.ErrUnexpectedEOF]);
    nothing else can fail on this path. *)

Inductive error : Type :=
| EOF
| ErrUnexpectedEOF.

Definition reading (A : Type) : Type := list byte -> (error + A) * list byte.

Definition ret {A} (x : A) : reading A := fun inp => (inr x, inp).

Definition bind {A B} (m : reading A) (k : A -> reading B) : reading B :=
  fun inp =>
    match m inp with
    | (inl e, rest) => (inl e, rest)
    | (inr x, rest) => k x rest
    end.

Notation "x <- m ;; k" := (bind m (fun x => k))
  (at level 61, m at next level, right associativity).

(** [bufio.Reader.ReadByte]. *)
Definition ReadByte : reading byte :=
  fun inp =>
    match inp with
    | [] => (inl EOF, [])
    | b :: rest => (inr b, rest)
    end.

(** [bufio.Reader.ReadString(delim)]: the bytes up to and including the
    first [delim]; [io.EOF] when the input ends before one. *)
Fixpoint ReadString (delim : byte) (inp : list byte)
  : (error + list byte) * list byte :=
  match inp with
  | [] => (inl EOF, [])
  | b :: rest =>
      if Byte.eqb b delim then (inr [b], rest)
      else match ReadString delim rest with
           | (inr l, rest') => (inr (b :: l), rest')
           | (inl e, rest') => (inl e, rest')
           end
  end.

(** [io.ReadFull(reader, buf)] for a buffer of [n] bytes. *)
Definition ReadFull (n : nat) : reading (list byte) :=
  fun inp =>
    if (n <=? length inp)%nat then (inr (firstn n inp), skipn n inp)
    else match inp with
         | [] => (inl EOF, [])
         | _ => (inl ErrUnexpectedEOF, [])
         end.

Definition byteZ (b : byte) : Z := Z.of_N (Byte.to_N b).

(** [binary.BigEndian.Uint16]. *)
Definition BigEndianUint16 (b0 b1 : byte) : Z :=
  Z.lor (Z.shiftl (byteZ b0) 8) (byteZ b1).

(** [binary.Read(reader, binary.BigEndian, &length)] for a uint16. *)
Definition ReadUint16 : reading Z :=
  bs <- ReadFull 2 ;;
  ret (BigEndianUint16 (nth 0 bs x00) (nth 1 bs x00)).

(** *** Client *)

(** The fields of [Client] that the media path reads or writes. The
    aggregator is shared by all clients of a run, so it is not a field here:
    every operation takes the aggregator and returns it. *)
Record Client : Type := mkClient {
  reader        : list byte;
  tracker       : SeqTracker;
  bytesReceived : Z;   (* uint64 *)
  packetsRcvd   : Z    (* uint64 *)
}.

(** [NewClient], reading from the given connection. *)
Definition NewClient (conn : list byte) : Client :=
  mkClient conn NewSeqTracker 0 0.

Definition set_reader (r : list byte) (c : Client) : Client :=
  mkClient r (tracker c) (bytesReceived c) (packetsRcvd c).

Definition len (data : list byte) : Z := Z.of_nat (length data).

(** [processRTPPacket]. *)
Definition processRTPPacket (data : list byte) (c : Client) (a : Aggregator)
  : Client * Aggregator :=
  if len data <? 12 then (c, a)
  else
    let seq := BigEndianUint16 (nth 2 data x00) (nth 3 data x00) in
    let '(t, nlost) := Push (tracker c) seq in
    let a1 := if 0 <? nlost then AddLoss nlost a else a in
    let a2 := AddPackets 1 a1 in
    (mkClient (reader c) t
              (wrap64 (bytesReceived c + len data))
              (wrap64 (packetsRcvd c + 1)),
     a2).

(** The magic byte of an interleaved frame, '$'. *)
Definition magicByte : byte := x24.
Definition newline : byte := x0a.

(** [readInterleavedFrame]: the error returned ([None] for nil), the client
    and the aggregator afterwards. [4 + length] is a uint16 sum. *)
Definition readInterleavedFrame (c : Client) (a : Aggregator)
  : option error * Client * Aggregator :=
  match ReadByte (reader c) with
  | (inl e, r) => (Some e, set_reader r c, a)
  | (inr magic, r) =>
      if negb (Byte.eqb magic magicByte) then
        match ReadString newline r with
        | (inl e, r') => (Some e, set_reader r' c, a)
        | (inr _, r') => (None, set_reader r' c, a)
        end
      else
        match (channel <- ReadByte ;;
               length <- ReadUint16 ;;
               payload <- ReadFull (Z.to_nat length) ;;
               ret (channel, length, payload)) r with
        | (inl e, r') => (Some e, set_reader r' c, a)
        | (inr (channel, length, payload), r') =>
            let '(c1, a1) :=
              if (byteZ channel =? 0) && (12 <=? len payload)
              then processRTPPacket payload (set_reader r' c) a
              else (set_reader r' c, a) in
            (None,
             mkClient (reader c1) (tracker c1)
                      (wrap64 (bytesReceived c1 + wrap16 (4 + length)))
                      (packetsRcvd c1),
             a1)
        end
  end.

(** [reportStats]. *)
Definition reportStats (c : Client) (a : Aggregator) : Aggregator :=
  let stats := GetStats (tracker c) in
  if 0 <? Lost stats then AddLoss (Lost stats) a else a.

(** The receive loop of [runUDP] on the datagrams that arrive before the
    context is cancelled, followed by the exit path ([<-ctx.Done()]):
    datagrams of at least 12 bytes are processed, then [reportStats] runs. *)
Definition receiveDatagrams (dgrams : list (list byte)) (c : Client)
  (a : Aggregator) : Client * Aggregator :=
  fold_left
    (fun st d => if 12 <=? len d then processRTPPacket d (fst st) (snd st)
                 else st)
    dgrams (c, a).

Definition runUDP (dgrams : list (list byte)) (c : Client) (a : Aggregator)
  : Client * Aggregator :=
  let '(c1, a1) := receiveDatagrams dgrams c a in
  (c1, reportStats c1 a1).

(** What one turn of the [select] of [runTCP] takes. The [ctx.Done()] case
    ends the loop and is the end of the list of turns. *)
Inductive turn : Type :=
| ReadFrame (cancelled : bool)
    (* default: readInterleavedFrame; [cancelled] is [ctx.Err() != nil] at
       the moment the read has returned *)
| KeepAliveTick
    (* <-keepAlive.C: the keep-alive goroutine is started *)
| KeepAliveError.
    (* err := <-errCh *)

(** How [runTCP] is left. *)
Inductive exit : Type :=
| CtxDone                 (* <-ctx.Done(): reportStats; return ctx.Err() *)
| ReadCancelled           (* read error, ctx.Err() != nil: reportStats;
                             return nil *)
| ReadFailed (e : error)  (* read error, context live: "read frame failed" *)
| KeepAliveFailed.        (* "keepalive failed" *)

(** [runTCP]: the turns the loop takes, in order, and then [<-ctx.Done()].
    A read error ends the loop: with the context cancelled the stats are
    reported and nil is returned, otherwise the error is returned without a
    report; a keep-alive error ends it without a report. Which case a
    [select] takes is the scheduler's choice, so the list is arbitrary: it
    is not restricted to the orders the channels allow (an error on [errCh]
    only after a tick), and what holds for every list holds for every run
    that returns. [reader c] is the bytes [readInterleavedFrame] gets; the
    request and response of the keep-alive goroutine are not followed. *)
Fixpoint runTCP (turns : list turn) (c : Client) (a : Aggregator)
  : exit * Client * Aggregator :=
  match turns with
  | [] => (CtxDone, c, reportStats c a)
  | ReadFrame cancelled :: rest =>
      match readInterleavedFrame c a with
      | (Some e, c1, a1) =>
          if cancelled then (ReadCancelled, c1, reportStats c1 a1)
          else (ReadFailed e, c1, a1)
      | (None, c1, a1) => runTCP rest c1 a1
      end
  | KeepAliveTick :: rest => runTCP rest c a
  | KeepAliveError :: _ => (KeepAliveFailed, c, a)
  end.

(** Whether the exit ran [reportStats]. *)
Definition reported (x : exit) : bool :=
  match x with
  | CtxDone | ReadCancelled => true
  | ReadFailed _ | KeepAliveFailed => false
  end.

(** *** Wire formats and the accounting invariant *)

(** An RTP packet of 12 bytes carrying the given two sequence bytes. *)
Definition rtpPacket (hi lo : byte) : list byte :=
  [x80; x60; hi; lo; x00; x00; x00; x00; x00; x00; x00; x00].

(** An interleaved frame: '$', channel, length (big-endian), payload. *)
Definition interleavedFrame (channel hi lo : byte) (payload : list byte)
  : list byte :=
  magicByte :: channel :: hi :: lo :: payload.

(** While a session processes packets, the aggregator's loss counter is
    what it was at the start ([base]) plus the tracker's [totalLost]. *)
Definition lossAccounted (base : Z) (c : Client) (a : Aggregator) : Prop :=
  0 <= totalLost (tracker c)
  /\ 0 <= lost a < 0x10000000000000000
  /\ lost a = wrap64 (base + totalLost (tracker c)).

(** The byte with the low eight bits of [z]. *)
Definition byteOfZ (z : Z) : byte :=
  match Byte.of_N (Z.to_N (z mod 256)) with
  | Some b => b
  | None => x00
  end.

(** The interleaved frame a server sends for [payload] on [channel]; the
    length field is the payload length on 16 bits. *)
Definition frameOf (channel : byte) (payload : list byte) : list byte :=
  interleavedFrame channel (byteOfZ (len payload / 256))
                   (byteOfZ (len payload)) payload.

(** *** The control channel: requests under the client's mutex

    [c.mu] is a [sync.Mutex]: [Lock] on a mutex that is held does not
    return until the holder unlocks it. The operations below are followed
    within one goroutine; an operation that reaches such a [Lock] while
    the same call chain holds the mutex never returns ([Blocks]). *)

Inductive Method : Type :=
| OPTIONS | DESCRIBE | SETUP | PLAY | GET_PARAMETER | TEARDOWN.

Inductive Header : Type :=
| HSession | HTransport | HAccept | HRange.

(** A request as [buildRequest] composes it: the method of the request
    line, the CSeq number and the caller's headers. *)
Record Request : Type := mkRequest {
  reqMethod  : Method;
  reqCSeq    : Z;
  reqHeaders : list (Header * list byte)
}.

Inductive ctlError : Type :=
| ErrConnectionClosed     (* "connection closed" *)
| ErrWrite                (* the error of conn.Write *)
| ErrResponse.            (* the error of readResponse *)

(** The fields of [Client] that the control path reads or writes, the
    requests written to the connection so far ([wire]), and which sockets
    have been closed. *)
Record Control : Type := mkControl {
  closed     : bool;
  session    : list byte;
  cseq       : Z;           (* int *)
  muHeld     : bool;        (* c.mu *)
  connSet    : bool;        (* c.conn != nil *)
  rtpSet     : bool;        (* c.rtpConn != nil *)
  rtcpSet    : bool;        (* c.rtcpConn != nil *)
  wire       : list Request;
  connClosed : bool;
  rtpClosed  : bool;
  rtcpClosed : bool
}.

Inductive outcome (A : Type) : Type :=
| Returns (x : A) (st : Control)
| Blocks (st : Control).

Arguments Returns {A} x st.
Arguments Blocks {A} st.

Definition stateOf {A : Type} (o : outcome A) : Control :=
  match o with
  | Returns _ st => st
  | Blocks st => st
  end.

Definition set_muHeld (b : bool) (st : Control) : Control :=
  mkControl (closed st) (session st) (cseq st) b (connSet st) (rtpSet st)
            (rtcpSet st) (wire st) (connClosed st) (rtpClosed st)
            (rtcpClosed st).

Definition set_closed (b : bool) (st : Control) : Control :=
  mkControl b (session st) (cseq st) (muHeld st) (connSet st) (rtpSet st)
            (rtcpSet st) (wire st) (connClosed st) (rtpClosed st)
            (rtcpClosed st).

Definition set_cseq (n : Z) (st : Control) : Control :=
  mkControl (closed st) (session st) n (muHeld st) (connSet st) (rtpSet st)
            (rtcpSet st) (wire st) (connClosed st) (rtpClosed st)
            (rtcpClosed st).

Definition write_wire (req : Request) (st : Control) : Control :=
  mkControl (closed st) (session st) (cseq st) (muHeld st) (connSet st)
            (rtpSet st) (rtcpSet st) (wire st ++ [req]) (connClosed st)
            (rtpClosed st) (rtcpClosed st).

(** The three [Close] calls at the end of [Client.Close]. *)
Definition closeSockets (st : Control) : Control :=
  mkControl (closed st) (session st) (cseq st) (muHeld st) (connSet st)
            (rtpSet st) (rtcpSet st) (wire st)
            (connClosed st || connSet st)
            (rtpClosed st || rtpSet st)
            (rtcpClosed st || rtcpSet st).

(** [buildRequest]: the request and the client with [cseq] advanced. *)
Definition buildRequest (m : Method) (hs : list (Header * list byte))
  (st : Control) : Request * Control :=
  (mkRequest m (cseq st) hs, set_cseq (wrapInt64 (cseq st + 1)) st).

Section Server.

(** The far end: whether a write on the connection succeeds, and whether
    the response read after it is an error. *)
Variable writeOK : Control -> Request -> bool.
Variable responseOK : Control -> Request -> bool.

(** [sendRequestWithResponse], with the response text left out. *)
Definition sendRequestWithResponse (req : Request) (st : Control)
  : outcome (option ctlError) :=
  if muHeld st then Blocks st
  else
    let st1 := set_muHeld true st in
    if closed st1 then Returns (Some ErrConnectionClosed) (set_muHeld false st1)
    else if negb (writeOK st1 req)
    then Returns (Some ErrWrite) (set_muHeld false st1)
    else
      let st2 := write_wire req st1 in
      Returns (if responseOK st2 req then None else Some ErrResponse)
              (set_muHeld false st2).

(** [sendRequest]. *)
Definition sendRequest (req : Request) (st : Control)
  : outcome (option ctlError) :=
  sendRequestWithResponse req st.

(** [sendKeepAlive]. *)
Definition sendKeepAlive (st : Control) : outcome (option ctlError) :=
  let '(req, st1) := buildRequest GET_PARAMETER [(HSession, session st)] st in
  sendRequest req st1.

(** [sendTeardown]. *)
Definition sendTeardown (st : Control) : outcome (option ctlError) :=
  match session st with
  | [] => Returns None st
  | _ :: _ =>
      let '(req, st1) := buildRequest TEARDOWN [(HSession, session st)] st in
      sendRequest req st1
  end.

(** [Close]. *)
Definition Close (st : Control) : outcome (option ctlError) :=
  if muHeld st then Blocks st
  else
    let st1 := set_muHeld true st in
    if closed st1 then Returns None (set_muHeld false st1)
    else
      let st2 := set_closed true st1 in
      let sent :=
        match session st2 with
        | _ :: _ => if connSet st2 then sendTeardown st2 else Returns None st2
        | [] => Returns None st2
        end in
      match sent with
      | Blocks st3 => Blocks st3
      | Returns _ st3 => Returns None (set_muHeld false (closeSockets st3))
      end.

End Server.

(** *** Reading a header out of a response

    Go's [strings] functions on the bytes of a string. [ToLower] and
    [TrimSpace] are given for ASCII text, where they act byte by byte
    (RTSP responses are ASCII); the properties below are stated for ASCII
    responses. *)

Definition colon : byte := x3a.
Definition semicolon : byte := x3b.

Definition isASCII (s : list byte) : Prop :=
  Forall (fun b => byteZ b < 128) s.

Definition lowerByte (b : byte) : byte :=
  if (0x41 <=? byteZ b) && (byteZ b <=? 0x5a) then byteOfZ (byteZ b + 32)
  else b.

(** [strings.ToLower]. *)
Definition ToLower (s : list byte) : list byte := map lowerByte s.

(** [strings.HasPrefix]. *)
Fixpoint HasPrefix (s prefix : list byte) : bool :=
  match prefix, s with
  | [], _ => true
  | p :: ps, b :: bs => Byte.eqb b p && HasPrefix bs ps
  | _ :: _, [] => false
  end.

(** [strings.Split(s, sep)] for a separator of one byte: the pieces between
    the separators, one more than there are separators. *)
Fixpoint Split (sep : byte) (s : list byte) : list (list byte) :=
  match s with
  | [] => [[]]
  | b :: rest =>
      if Byte.eqb b sep then [] :: Split sep rest
      else match Split sep rest with
           | piece :: pieces => (b :: piece) :: pieces
           | [] => [[b]]
           end
  end.

(** [strings.SplitN(s, sep, 2)] for a separator of one byte: the part before
    the first separator and, when there is one, the part after it. *)
Fixpoint SplitN2 (sep : byte) (s : list byte)
  : list byte * option (list byte) :=
  match s with
  | [] => ([], None)
  | b :: rest =>
      if Byte.eqb b sep then ([], Some rest)
      else let '(before, after) := SplitN2 sep rest in (b :: before, after)
  end.

(** The ASCII white space of [strings.TrimSpace]. *)
Definition isSpace (b : byte) : bool :=
  match b with
  | x09 | x0a | x0b | x0c | x0d | x20 => true
  | _ => false
  end.

Fixpoint trimLeft (s : list byte) : list byte :=
  match s with
  | [] => []
  | b :: rest => if isSpace b then trimLeft rest else s
  end.

(** [strings.TrimSpace]. *)
Definition TrimSpace (s : list byte) : list byte :=
  rev (trimLeft (rev (trimLeft s))).

(** The loop of [extractHeader] over the lines; [key] is the lower-case
    header name followed by a colon. *)
Fixpoint findHeader (lines : list (list byte)) (key : list byte)
  : list byte :=
  match lines with
  | [] => []
  | line :: rest =>
      if HasPrefix (ToLower line) key then
        match SplitN2 colon line with
        | (_, Some value) => TrimSpace value
        | (_, None) => findHeader rest key
        end
      else findHeader rest key
  end.

(** [extractHeader]. *)
Definition extractHeader (response header : list byte) : list byte :=
  findHeader (Split newline response) (ToLower header ++ [colon]).

(** The bytes of "Session". *)
Definition sessionName : list byte := [x53; x65; x73; x73; x69; x6f; x6e].

(** [sendSetup] from the first SETUP exchange on: [response] and [err] are
    what [sendRequestWithResponse] returned and [old] is [c.session] before.
    An error is returned at once and nothing is stored. Otherwise the part
    of the Session header before the first ';', trimmed, is stored, or the
    old value kept when the response has no such header. The result is the
    error returned here ([None] when [sendSetup] goes on) and [c.session]
    afterwards. *)
Definition sessionFromSetup (response : list byte) (err : option ctlError)
  (old : list byte) : option ctlError * list byte :=
  match err with
  | Some e => (Some e, old)
  | None =>
      (None,
       match extractHeader response sessionName with
       | [] => old
       | v => TrimSpace (hd [] (Split semicolon v))
       end)
  end.

End Rtsp.

(** ** internal/bench *)

Module Bench.

(** [time.Duration] is an int64 count of nanoseconds. *)
Definition Second : Z := 1000000000.
Definition Minute : Z := 60 * Second.

(** The fields of [Config] used below. *)
Record Config : Type := mkConfig {
  Readers        : Z;      (* int *)
  Duration       : Z;      (* time.Duration *)
  Rate           : float;
  AvgConnections : Z;      (* int *)
  Variance       : float
}.

(** What [NewRunner] fixes: the burst of the rate limiter and the capacity
    of the semaphore channel. *)
Record Runner : Type := mkRunner {
  config       : Config;
  limiterBurst : Z;
  semaphoreCap : Z
}.

(** [NewRunner]. Go's integer division truncates ([Z.quot]). *)
Definition NewRunner (cfg : Config) : Runner :=
  let burst := 10 in
  let burst :=
    if (100 <? Rate cfg)%float
    then int64_of_float64 (Rate cfg / 10)%float
    else burst in
  let burst := if 100 <? burst then 100 else burst in
  let maxConcurrent := 10000 in
  let maxConcurrent :=
    if 10000 <? Readers cfg then
      let m := Z.quot (Readers cfg) 10 in
      if 50000 <? m then 50000 else m
    else maxConcurrent in
  mkRunner cfg burst maxConcurrent.

(** The daily pattern of [adjustTargetLoad]: the [switch] on the hour. *)
Definition dayFactor (hour : Z) : float :=
  if (9 <=? hour) && (hour <=? 11) then 1.2%float
  else if (12 <=? hour) && (hour <=? 13) then 0.9%float
  else if (14 <=? hour) && (hour <=? 17) then 1.1%float
  else if (18 <=? hour) && (hour <=? 22) then 1.3%float
  else if (23 <=? hour) || (hour <=? 5) then 0.6%float
  else 0.8%float.

Definition minTarget (cfg : Config) : Z :=
  int64_of_float64 (float64_of_Z (AvgConnections cfg) * (1 - Variance cfg))%float.

Definition maxTarget (cfg : Config) : Z :=
  int64_of_float64 (float64_of_Z (AvgConnections cfg) * (1 + Variance cfg))%float.

(** [adjustTargetLoad]: the value stored in [targetConnects], given the
    hour read from the clock and the draw of [rand.Float64()]. *)
Definition adjustTargetLoad (cfg : Config) (hour : Z) (rnd : float) : Z :=
  let avg := float64_of_Z (AvgConnections cfg) in
  let variance := Variance cfg in
  let randomFactor := (1 + (rnd - 0.5) * variance)%float in
  let newTarget := int64_of_float64 (avg * dayFactor hour * randomFactor)%float in
  let newTarget := if newTarget <? minTarget cfg then minTarget cfg else newTarget in
  let newTarget := if maxTarget cfg <? newTarget then maxTarget cfg else newTarget in
  newTarget.

(** What one tick of [adjustConnections] does. *)
Inductive adjustment : Type :=
| Spawn (toAdd : Z)        (* [toAdd] times [go s.addConnection(ctx)] *)
| Cancel (toRemove : Z)    (* [s.removeConnections(toRemove)] *)
| NoChange.

(** [adjustConnections], on int64. *)
Definition adjustConnections (current target : Z) : adjustment :=
  let diff := wrapInt64 (target - current) in
  if 0 <? diff then Spawn (if 50 <? diff then 50 else diff)
  else if diff <? 0 then
    let toRemove := wrapInt64 (- diff) in
    Cancel (if 20 <? toRemove then 20 else toRemove)
  else NoChange.

(** The session lifetime of [addConnection]. *)
Definition minDuration : Z := 30 * Second.

Definition maxDuration (cfg : Config) : Z :=
  if Duration cfg <=? minDuration then 5 * Minute else Duration cfg.

Definition durationRange (cfg : Config) : Z :=
  let r := wrapInt64 (maxDuration cfg - minDuration) in
  if r <=? 0 then 4 * Minute + 30 * Second else r.

(** [duration := minDuration + time.Duration(rand.Int63n(int64(durationRange)))],
    where [draw] is the number [rand.Int63n] returned: by its contract
    [0 <= draw < durationRange]. *)
Definition sessionDuration (cfg : Config) (draw : Z) : Z :=
  wrapInt64 (minDuration + draw).

(** [removeConnections]: the loop over the connection map, in the order the
    iteration yields its entries; the connections cancelled (and deleted)
    and the ones left. *)
Fixpoint removeLoop {A : Type} (count removed : Z) (conns : list A)
  : list A * list A :=
  match conns with
  | [] => ([], [])
  | c :: rest =>
      if count <=? removed then ([], conns)
      else let '(cancelled, kept) := removeLoop count (removed + 1) rest in
           (c :: cancelled, kept)
  end.

Definition removeConnections {A : Type} (count : Z) (conns : list A)
  : list A * list A :=
  removeLoop count 0 conns.

(** *** Connection establishment in [runConnection] *)

(** What one turn of the retry loop meets. *)
Inductive attempt : Type :=
| CtxCancelled      (* ctx.Err() != nil at the top of the turn *)
| NewClientFails    (* rtsp.NewClient returns an error *)
| ConnectFails      (* client.Connect returns an error *)
| Connects.

Inductive establish : Type :=
| Established       (* break: the session goes on *)
| GaveUp            (* totalFailures.Add(1); return *)
| Abandoned.        (* return on a cancelled context *)

Definition maxRetries : Z := 3.
Definition Millisecond : Z := 1000000.

(** [time.Duration(100*(1<<retry)) * time.Millisecond]. *)
Definition backoff (retry : Z) : Z :=
  wrapInt64 (wrapInt64 (100 * Z.shiftl 1 retry) * Millisecond).

(** The [for retry := 0; retry < maxRetries; retry++] loop: [env] says what
    each turn meets; the result is how the loop is left and the sleeps made
    on the way, in order. [fuel] bounds the turns; three are enough. *)
Fixpoint retryLoop (fuel : nat) (retry : Z) (env : Z -> attempt)
  : establish * list Z :=
  match fuel with
  | O => (Established, [])
  | S fuel' =>
      if retry <? maxRetries then
        match env retry with
        | CtxCancelled => (Abandoned, [])
        | Connects => (Established, [])
        | NewClientFails | ConnectFails =>
            if retry =? maxRetries - 1 then (GaveUp, [])
            else let '(r, sleeps) := retryLoop fuel' (retry + 1) env in
                 (r, backoff retry :: sleeps)
        end
      else (Established, [])
  end.

Definition establishConnection (env : Z -> attempt) : establish * list Z :=
  retryLoop 4 0 env.

Definition isFailure (a : attempt) : bool :=
  match a with
  | NewClientFails | ConnectFails => true
  | CtxCancelled | Connects => false
  end.

(** *** Latency bookkeeping in [runConnection] *)

Definition len_lt_10000 {A : Type} (l : list A) : bool :=
  Z.of_nat (length l) <? 10000.

Record Latency : Type := mkLatency {
  connectLatency : Z;        (* atomic.Int64, cumulative milliseconds *)
  connectCount   : Z;        (* atomic.Int64 *)
  minLatency     : Z;        (* atomic.Int64 *)
  maxLatency     : Z;        (* atomic.Int64 *)
  latencies      : list float
}.

(** As [NewRunner] leaves them. *)
Definition NewLatency : Latency := mkLatency 0 0 99999999 0 [].

(** "Track connection time" to "Store for percentile calculation", run by
    one goroutine at a time: each compare-and-swap loop then ends in its
    first turn. *)
Definition recordLatency (latencyMs : Z) (l : Latency) : Latency :=
  let sum := wrapInt64 (connectLatency l + latencyMs) in
  let cnt := wrapInt64 (connectCount l + 1) in
  let mn := if minLatency l <=? latencyMs then minLatency l else latencyMs in
  let mx := if latencyMs <=? maxLatency l then maxLatency l else latencyMs in
  let buf := if len_lt_10000 (latencies l)
             then latencies l ++ [float64_of_Z latencyMs]
             else latencies l in
  mkLatency sum cnt mn mx buf.

Definition recordAll (samples : list Z) (l : Latency) : Latency :=
  fold_left (fun acc x => recordLatency x acc) samples l.

End Bench.

(** ** The specification's formulas, for comparison *)

Module Spec.

Definition clamp (x lo hi : Z) : Z := Z.min hi (Z.max lo x).

(** "concurrency cap = clamp(N/10, 10 000, 50 000)". *)
Definition concurrencyCap (n : Z) : Z := clamp (Z.quot n 10) 10000 50000.

End Spec.

Import Rtp.

(** * Properties *)

(** ** Machine arithmetic *)

Lemma wrap16_range z : 0 <= wrap16 z < 0x10000.
Proof. unfold wrap16. apply Z.mod_pos_bound. lia. Qed.

Lemma wrap64_range z : 0 <= wrap64 z < 0x10000000000000000.
Proof. unfold wrap64. apply Z.mod_pos_bound. lia. Qed.

Lemma wrap64_small z : 0 <= z < 0x10000000000000000 -> wrap64 z = z.
Proof. intros H. unfold wrap64. apply Z.mod_small. exact H. Qed.

Lemma wrap64_idem z : wrap64 (wrap64 z) = wrap64 z.
Proof. unfold wrap64. apply Z.mod_mod. lia. Qed.

Lemma wrap64_add_l a b : wrap64 (wrap64 a + b) = wrap64 (a + b).
Proof. unfold wrap64. apply Zplus_mod_idemp_l. Qed.

Lemma wrap64_add_r a b : wrap64 (a + wrap64 b) = wrap64 (a + b).
Proof. unfold wrap64. apply Zplus_mod_idemp_r. Qed.

(** The 16-bit distance seen from the other side: a non-zero distance [d]
    forwards is the distance [2^16 - d] backwards. *)
Lemma wrap16_opp a b :
  wrap16 (a - b) <> 0 -> wrap16 (b - a) = 0x10000 - wrap16 (a - b).
Proof.
  unfold wrap16. intros H.
  replace (b - a) with (- (a - b)) by ring.
  apply Z.mod_opp_l_nz; [lia | exact H].
Qed.

(** ** Sequence tracker *)

Example push_wrap_stream :
  pushAll [65534; 65535; 0; 1] NewSeqTracker
  = mkSeqTracker true 1 0 4 1 0x10001 65534 65535 0.
Proof. reflexivity. Qed.

Example push_forward_gap :
  snd (Push (pushAll [100] NewSeqTracker) 105) = 4.
Proof. reflexivity. Qed.

(** Reduce the projections and setters of a tracker, and nothing else. *)
Ltac tracker_simpl :=
  cbn [initialized lastSeq totalLost totalPkts cycles maxSeq baseSeq badSeq
       probation set_lastSeq set_totalLost set_totalPkts set_cycles
       set_maxSeq countPacket fst snd].

Ltac split_ifs :=
  repeat match goal with
         | |- context [if ?b then _ else _] =>
             let E := fresh "E" in destruct b eqn:E; tracker_simpl
         end.

Lemma pushAll_app l1 l2 s : pushAll (l1 ++ l2) s = pushAll l2 (pushAll l1 s).
Proof. unfold pushAll. apply fold_left_app. Qed.

Lemma pushAll_cons q l s : pushAll (q :: l) s = pushAll l (fst (Push s q)).
Proof. reflexivity. Qed.

Lemma updateSequence_initialized s seq :
  initialized (fst (updateSequence s seq)) = initialized s.
Proof.
  unfold updateSequence.
  repeat match goal with
         | |- context [if ?b then _ else _] => destruct b
         end; reflexivity.
Qed.

Lemma Push_initialized s seq : initialized (fst (Push s seq)) = true.
Proof.
  unfold Push. destruct (initialized s) eqn:E.
  - rewrite updateSequence_initialized. exact E.
  - reflexivity.
Qed.

Lemma pushAll_initialized l s :
  initialized s = true -> initialized (pushAll l s) = true.
Proof.
  revert s. induction l as [|q l IH]; intros s H.
  - exact H.
  - rewrite pushAll_cons. apply IH. apply Push_initialized.
Qed.

(** The backward branch proper: a 16-bit distance strictly above 0x8000. *)
Lemma updateSequence_backward s seq :
  0x8000 < wrap16 (seq - lastSeq s) ->
  updateSequence s seq = (countPacket (set_lastSeq seq s), 0).
Proof.
  intros Hd. unfold updateSequence.
  pose proof (wrap16_range (seq - lastSeq s)) as Hr.
  assert (Hopp : wrap16 (lastSeq s - seq) = 0x10000 - wrap16 (seq - lastSeq s))
    by (apply wrap16_opp; lia).
  destruct (wrap16 (seq - lastSeq s) <? 0x8000) eqn:E1.
  - apply Z.ltb_lt in E1. lia.
  - destruct (wrap16 (lastSeq s - seq) <? 0x8000) eqn:E2.
    + reflexivity.
    + apply Z.ltb_ge in E2. lia.
Qed.

(** A repeated sequence number: distance 0. *)
Lemma updateSequence_duplicate s :
  updateSequence s (lastSeq s) = (countPacket s, 0).
Proof.
  unfold updateSequence.
  replace (lastSeq s - lastSeq s) with 0 by ring.
  destruct s; reflexivity.
Qed.

(** Counting one more packet commutes with a push on an initialized
    tracker: no branch of [updateSequence] reads [totalPkts]. *)
Lemma updateSequence_countPacket s seq :
  updateSequence (countPacket s) seq
  = (countPacket (fst (updateSequence s seq)), snd (updateSequence s seq)).
Proof.
  unfold updateSequence. destruct s. tracker_simpl.
  split_ifs; reflexivity.
Qed.

Lemma pushAll_countPacket l s :
  initialized s = true ->
  pushAll l (countPacket s) = countPacket (pushAll l s).
Proof.
  revert s. induction l as [|q l IH]; intros s H.
  - reflexivity.
  - rewrite !pushAll_cons.
    assert (E : fst (Push (countPacket s) q) = countPacket (fst (Push s q))).
    { unfold Push. replace (initialized (countPacket s)) with (initialized s)
        by (destruct s; reflexivity).
      rewrite H. rewrite updateSequence_countPacket. reflexivity. }
    rewrite E. apply IH. apply Push_initialized.
Qed.

(** C1 (as the code has it). For an initialized tracker and a sequence
    number whose 16-bit distance from [lastSeq] is strictly above 0x8000
    (behind the last one), [Push] returns 0 and leaves [totalLost] and
    [cycles] as they were, and the packet is counted: [totalPkts] goes up by
    one. *)
Theorem push_backward_counts_packet (s : SeqTracker) (seq : Z) :
  initialized s = true ->
  0x8000 < wrap16 (seq - lastSeq s) ->
  snd (Push s seq) = 0
  /\ totalLost (fst (Push s seq)) = totalLost s
  /\ cycles (fst (Push s seq)) = cycles s
  /\ totalPkts (fst (Push s seq)) = wrap64 (totalPkts s + 1).
Proof.
  intros Hi Hd. unfold Push. rewrite Hi.
  rewrite (updateSequence_backward s seq Hd).
  repeat split; reflexivity.
Qed.

Lemma push_backward_counts_packet_witness :
  let s := pushAll [100] NewSeqTracker in
  snd (Push s 99) = 0
  /\ totalLost (fst (Push s 99)) = totalLost s
  /\ cycles (fst (Push s 99)) = cycles s
  /\ totalPkts (fst (Push s 99)) = wrap64 (totalPkts s + 1).
Proof.
  apply (push_backward_counts_packet (pushAll [100] NewSeqTracker) 99).
  - reflexivity.
  - vm_compute. reflexivity.
Defined.

(** C1 as the specification words it fails on the packet count: after 100,
    pushing 99 (distance 0xFFFF, in the backward region) returns 0 and
    leaves [totalLost] at 0, and [totalPkts] goes from 1 to 2. *)
Lemma push_backward_counterexample :
  let s := pushAll [100] NewSeqTracker in
  initialized s = true
  /\ 0x8000 <= wrap16 (99 - lastSeq s)
  /\ snd (Push s 99) = 0
  /\ totalPkts s = 1
  /\ totalPkts (fst (Push s 99)) = 2
  /\ totalPkts (fst (Push s 99)) <> totalPkts s.
Proof.
  cbv zeta. repeat split; try reflexivity; vm_compute; discriminate.
Qed.

(** The one distance the backward branch does not take: at exactly 0x8000
    the code runs its "very large forward jump" branch, which adds a cycle
    and reports a loss. *)
Example push_half_range :
  let s := pushAll [100] NewSeqTracker in
  wrap16 (32868 - lastSeq s) = 0x8000
  /\ Push s 32868
     = (mkSeqTracker true 32868 98303 2 1 0x18064 100 101 0, 98303).
Proof. split; reflexivity. Qed.

(** A duplicate of the current last number, then [post], from any
    initialized tracker reached after [pre]. *)
Lemma push_duplicate_fresh_aux (s0 : SeqTracker) (pre post : list Z) :
  initialized s0 = true ->
  pushAll (pre ++ lastSeq (pushAll pre s0) :: post) s0
  = countPacket (pushAll (pre ++ post) s0).
Proof.
  intros Hi.
  assert (Hs : initialized (pushAll pre s0) = true)
    by (apply pushAll_initialized; exact Hi).
  rewrite !pushAll_app, pushAll_cons.
  unfold Push at 1. rewrite Hs, updateSequence_duplicate. cbn [fst].
  apply pushAll_countPacket. exact Hs.
Qed.

(** C2 (as the code has it). Pushing the last sequence number again returns
    0 and leaves [totalLost] as it was, but the packet is counted: [totalPkts]
    goes up by one. Inserted anywhere in a stream pushed into an initialized
    tracker, such a duplicate changes the final state in [totalPkts] only,
    which ends one higher. *)
Theorem push_duplicate_counts_packet (s0 : SeqTracker) (pre post : list Z) :
  initialized s0 = true ->
  let s := pushAll pre s0 in
  snd (Push s (lastSeq s)) = 0
  /\ totalLost (fst (Push s (lastSeq s))) = totalLost s
  /\ totalPkts (fst (Push s (lastSeq s))) = wrap64 (totalPkts s + 1)
  /\ pushAll (pre ++ lastSeq s :: post) s0 = countPacket (pushAll (pre ++ post) s0)
  /\ totalLost (pushAll (pre ++ lastSeq s :: post) s0)
     = totalLost (pushAll (pre ++ post) s0)
  /\ totalPkts (pushAll (pre ++ lastSeq s :: post) s0)
     = wrap64 (totalPkts (pushAll (pre ++ post) s0) + 1).
Proof.
  intros Hi s.
  assert (Hs : initialized s = true) by (apply pushAll_initialized; exact Hi).
  assert (HP : Push s (lastSeq s) = (countPacket s, 0)).
  { unfold Push. rewrite Hs. apply updateSequence_duplicate. }
  assert (HA : pushAll (pre ++ lastSeq s :: post) s0
               = countPacket (pushAll (pre ++ post) s0))
    by (apply push_duplicate_fresh_aux; exact Hi).
  rewrite HP, HA. repeat split; reflexivity.
Qed.

Lemma push_duplicate_counts_packet_witness :
  let s0 := pushAll [100] NewSeqTracker in
  let s := pushAll [105] s0 in
  snd (Push s (lastSeq s)) = 0
  /\ totalLost (fst (Push s (lastSeq s))) = totalLost s
  /\ totalPkts (fst (Push s (lastSeq s))) = wrap64 (totalPkts s + 1)
  /\ pushAll ([105] ++ lastSeq s :: [107]) s0
     = countPacket (pushAll ([105] ++ [107]) s0)
  /\ totalLost (pushAll ([105] ++ lastSeq s :: [107]) s0)
     = totalLost (pushAll ([105] ++ [107]) s0)
  /\ totalPkts (pushAll ([105] ++ lastSeq s :: [107]) s0)
     = wrap64 (totalPkts (pushAll ([105] ++ [107]) s0) + 1).
Proof.
  apply (push_duplicate_counts_packet (pushAll [100] NewSeqTracker) [105] [107]).
  reflexivity.
Defined.

(** The same from a fresh tracker: a duplicate of the last number inserted
    after a non-empty prefix. *)
Corollary duplicate_in_fresh_stream (pre post : list Z) :
  pre <> [] ->
  let s := pushAll pre NewSeqTracker in
  pushAll (pre ++ lastSeq s :: post) NewSeqTracker
  = countPacket (pushAll (pre ++ post) NewSeqTracker).
Proof.
  intros Hne s. destruct pre as [|q pre]; [congruence|].
  subst s. cbn [app]. rewrite !pushAll_cons.
  pose proof (push_duplicate_fresh_aux (fst (Push NewSeqTracker q)) pre post) as H.
  apply H. apply Push_initialized.
Qed.

(** C2 as the specification words it fails: the second push of 100 is
    counted in [totalPkts]. *)
Lemma push_duplicate_counterexample :
  let s := pushAll [100] NewSeqTracker in
  initialized s = true
  /\ totalPkts s = 1
  /\ totalPkts (fst (Push s (lastSeq s))) = 2
  /\ totalPkts (fst (Push s (lastSeq s))) <> totalPkts s
  /\ totalPkts (pushAll [100; 100] NewSeqTracker)
     <> totalPkts (pushAll [100] NewSeqTracker).
Proof.
  cbv zeta. repeat split; try reflexivity; vm_compute; discriminate.
Qed.

(** C3. From a fresh tracker, 65534, 65535, 0, 1 gives 4 packets, no loss
    and one cycle; 65533 then 2 gives a loss of 4 and one cycle. *)
Theorem push_across_wrap :
  let a := pushAll [65534; 65535; 0; 1] NewSeqTracker in
  let b := pushAll [65533; 2] NewSeqTracker in
  (totalPkts a = 4 /\ totalLost a = 0 /\ cycles a = 1)
  /\ (snd (Push (pushAll [65533] NewSeqTracker) 2) = 4
      /\ totalLost b = 4 /\ cycles b = 1).
Proof. cbv zeta. repeat split; reflexivity. Qed.

(** ** RTP processing *)

Import Rtsp.

Lemma byteZ_range b : 0 <= byteZ b < 256.
Proof.
  unfold byteZ. pose proof (Byte.to_N_bounded b) as H.
  split; [apply N2Z.is_nonneg | lia].
Qed.

(** What [processRTPPacket] does with a packet of at least 12 bytes: the
    big-endian number in bytes 2-3 is pushed, the loss returned is added to
    the aggregator when positive, one packet is added. *)
Lemma processRTPPacket_long data c a :
  12 <= len data ->
  let seq := BigEndianUint16 (nth 2 data x00) (nth 3 data x00) in
  let t := fst (Push (tracker c) seq) in
  let nlost := snd (Push (tracker c) seq) in
  processRTPPacket data c a
  = (mkClient (reader c) t (wrap64 (bytesReceived c + len data))
              (wrap64 (packetsRcvd c + 1)),
     AddPackets 1 (if 0 <? nlost then AddLoss nlost a else a)).
Proof.
  intros H seq t nlost. unfold processRTPPacket.
  destruct (len data <? 12) eqn:E; [apply Z.ltb_lt in E; lia|].
  fold seq. subst t nlost. destruct (Push (tracker c) seq). reflexivity.
Qed.

Lemma processRTPPacket_short data c a :
  len data < 12 -> processRTPPacket data c a = (c, a).
Proof.
  intros H. unfold processRTPPacket.
  destruct (len data <? 12) eqn:E; [reflexivity | apply Z.ltb_ge in E; lia].
Qed.

(** No path of [processRTPPacket] touches the aggregator's byte counter. *)
Lemma processRTPPacket_bytes data c a :
  bytes (snd (processRTPPacket data c a)) = bytes a.
Proof.
  unfold processRTPPacket.
  destruct (len data <? 12); [reflexivity|].
  destruct (Push (tracker c) _) as [t nlost].
  unfold AddPackets, AddLoss. cbn.
  destruct (0 <? nlost); reflexivity.
Qed.

(** C4 at a 12-byte packet with sequence number 100, on a fresh client and
    a fresh aggregator: the number is pushed and one packet is added, the
    length goes to the client's own [bytesReceived], and the aggregator's
    byte counter stays 0, where [AddBytes] of the length would make it 12. *)
Theorem processRTPPacket_leaves_bytes_out :
  let data := rtpPacket x00 x64 in
  let c := fst (processRTPPacket data (NewClient []) NewAggregator) in
  let a := snd (processRTPPacket data (NewClient []) NewAggregator) in
  len data = 12
  /\ tracker c = fst (Push NewSeqTracker 100)
  /\ bytesReceived c = 12
  /\ a = mkAggregator 1 0 0
  /\ bytes a = 0
  /\ bytes (AddBytes (len data) a) = 12.
Proof. cbv zeta. repeat split; reflexivity. Qed.

(** ** Interleaved frames *)

Lemma ReadFull_app (p rest : list byte) :
  ReadFull (length p) (p ++ rest) = (inr p, rest).
Proof.
  unfold ReadFull.
  assert (E : (length p <=? length (p ++ rest))%nat = true).
  { apply Nat.leb_le. rewrite length_app. lia. }
  rewrite E. f_equal.
  - f_equal. rewrite firstn_app, Nat.sub_diag, firstn_all. cbn.
    apply app_nil_r.
  - rewrite skipn_app, Nat.sub_diag, skipn_all. reflexivity.
Qed.

(** A well-formed frame is read whole; its payload goes to
    [processRTPPacket] exactly when the channel byte is 0 and the payload
    has at least 12 bytes. *)
Lemma readInterleavedFrame_frame c a channel hi lo payload rest :
  reader c = interleavedFrame channel hi lo payload ++ rest ->
  len payload = BigEndianUint16 hi lo ->
  readInterleavedFrame c a
  = let st := if (byteZ channel =? 0) && (12 <=? len payload)
              then processRTPPacket payload (set_reader rest c) a
              else (set_reader rest c, a) in
    (None,
     mkClient (reader (fst st)) (tracker (fst st))
              (wrap64 (bytesReceived (fst st) + wrap16 (4 + len payload)))
              (packetsRcvd (fst st)),
     snd st).
Proof.
  intros Hr Hl. unfold readInterleavedFrame. rewrite Hr.
  unfold interleavedFrame. cbn [app ReadByte].
  change (Byte.eqb magicByte magicByte) with true. cbn [negb].
  unfold bind, ReadUint16, bind, ret. cbn [ReadByte].
  change (ReadFull 2 (hi :: lo :: payload ++ rest))
    with (inr (A := error) [hi; lo], payload ++ rest).
  cbn [nth]. rewrite <- Hl. unfold len at 1. rewrite Nat2Z.id.
  rewrite ReadFull_app.
  destruct ((byteZ channel =? 0) && (12 <=? len payload)).
  - destruct (processRTPPacket payload (set_reader rest c) a). reflexivity.
  - reflexivity.
Qed.




(** ** The exit path: loss reported a second time *)

Lemma AddLoss_lost n a :
  wrap64 (lost (if 0 <? n then AddLoss n a else a))
  = wrap64 (lost a + (if 0 <? n then n else 0)).
Proof.
  unfold AddLoss. destruct (0 <? n); cbn.
  - apply wrap64_idem.
  - f_equal. ring.
Qed.

(** The loss a push returns is what it adds to [totalLost]. *)
Lemma Push_totalLost s seq :
  totalLost (fst (Push s seq))
  = if 0 <? snd (Push s seq)
    then wrap64 (totalLost s + snd (Push s seq))
    else totalLost s.
Proof.
  unfold Push, updateSequence. destruct (initialized s); [|reflexivity].
  split_ifs; tracker_simpl; split_ifs;
    repeat match goal with
           | H : (_ <? _) = true |- _ => apply Z.ltb_lt in H
           | H : (_ <? _) = false |- _ => apply Z.ltb_ge in H
           end;
    try reflexivity; lia.
Qed.

Lemma Push_snd_nonneg s seq : 0 <= snd (Push s seq).
Proof.
  unfold Push, updateSequence. destruct (initialized s); [|cbn [snd]; lia].
  split_ifs; tracker_simpl;
    repeat match goal with
           | H : (_ <? _) = true |- _ => apply Z.ltb_lt in H
           | H : (_ <? _) = false |- _ => apply Z.ltb_ge in H
           end;
    lia.
Qed.

Lemma Push_totalLost_nonneg s seq :
  0 <= totalLost s -> 0 <= totalLost (fst (Push s seq)).
Proof.
  intros H. rewrite Push_totalLost.
  destruct (0 <? snd (Push s seq)); [apply wrap64_range | exact H].
Qed.

Lemma processRTPPacket_lossAccounted base data c a :
  lossAccounted base c a ->
  lossAccounted base (fst (processRTPPacket data c a))
                     (snd (processRTPPacket data c a)).
Proof.
  intros (Ht & Hr & Heq).
  destruct (Z.lt_ge_cases (len data) 12) as [Hs|Hlong].
  - rewrite processRTPPacket_short by exact Hs. repeat split; tauto.
  - rewrite (processRTPPacket_long data c a Hlong).
    set (seq := BigEndianUint16 (nth 2 data x00) (nth 3 data x00)).
    pose proof (Push_totalLost (tracker c) seq) as HT.
    unfold lossAccounted, AddPackets, AddLoss.
    cbn [fst snd tracker Z.ltb Z.compare].
    rewrite HT.
    destruct (0 <? snd (Push (tracker c) seq)) eqn:En; cbn [lost].
    + split; [apply wrap64_range|]. split; [apply wrap64_range|].
      rewrite Heq, wrap64_add_l, wrap64_add_r. f_equal. ring.
    + tauto.
Qed.

Lemma receiveDatagrams_lossAccounted base dgrams c a :
  lossAccounted base c a ->
  lossAccounted base (fst (receiveDatagrams dgrams c a))
                     (snd (receiveDatagrams dgrams c a)).
Proof.
  unfold receiveDatagrams. revert c a.
  induction dgrams as [|d dgrams IH]; intros c a H.
  - exact H.
  - cbn [fold_left fst snd].
    destruct (12 <=? len d).
    + destruct (processRTPPacket d c a) as [c1 a1] eqn:E.
      apply IH. pose proof (processRTPPacket_lossAccounted base d c a H) as P.
      rewrite E in P. exact P.
    + apply IH. exact H.
Qed.

(** After the exit path the aggregator holds the session's loss twice:
    once from the per-packet [AddLoss], once more from [reportStats]. *)
Lemma runUDP_lost_twice (dgrams : list (list byte)) (a0 : Aggregator) :
  0 <= lost a0 < 0x10000000000000000 ->
  let c := fst (runUDP dgrams (NewClient []) a0) in
  let a := snd (runUDP dgrams (NewClient []) a0) in
  lost a = wrap64 (lost a0 + 2 * totalLost (tracker c)).
Proof.
  intros H0 c a. subst c a. unfold runUDP.
  assert (I0 : lossAccounted (lost a0) (NewClient []) a0).
  { repeat split; cbn; try lia. rewrite Z.add_0_r, wrap64_small; lia. }
  pose proof (receiveDatagrams_lossAccounted _ dgrams _ _ I0) as I.
  destruct (receiveDatagrams dgrams (NewClient []) a0) as [c1 a1].
  cbn [fst snd] in *. destruct I as (Ht & Hr & Heq).
  unfold reportStats, GetStats, AddLoss. cbn [Lost].
  destruct (0 <? totalLost (tracker c1)) eqn:E; cbn [lost].
  - rewrite Heq, wrap64_add_l. f_equal. ring.
  - apply Z.ltb_ge in E.
    assert (Hz : totalLost (tracker c1) = 0) by lia.
    rewrite Heq, Hz. reflexivity.
Qed.

(** C7 at a session that receives two packets, numbers 100 and 105, and
    then leaves through the exit path: the tracker has lost 4, the
    aggregator says 8. Without the exit report the two agree. *)
Theorem runUDP_reports_loss_twice :
  let dgrams := [rtpPacket x00 x64; rtpPacket x00 x69] in
  let before := receiveDatagrams dgrams (NewClient []) NewAggregator in
  let after := runUDP dgrams (NewClient []) NewAggregator in
  totalLost (tracker (fst before)) = 4
  /\ lost (snd before) = 4
  /\ totalLost (tracker (fst after)) = 4
  /\ lost (snd after) = 8
  /\ TakeSnapshot (snd after) = mkSnapshot 2 8 0.
Proof. cbv zeta. repeat split; reflexivity. Qed.

(** The same on the TCP path: two interleaved frames, then the exit path. *)
Example runTCP_reports_loss_twice :
  let conn := interleavedFrame x00 x00 x0c (rtpPacket x00 x64)
              ++ interleavedFrame x00 x00 x0c (rtpPacket x00 x69) in
  let r := runTCP [ReadFrame false; ReadFrame false]
             (NewClient conn) NewAggregator in
  fst (fst r) = CtxDone
  /\ totalLost (tracker (snd (fst r))) = 4
  /\ lost (snd r) = 8.
Proof. cbv zeta. repeat split; reflexivity. Qed.

(** And when the cancellation is seen after a failed read: the stats are
    reported there too. *)
Example runTCP_cancelled_read_reports_twice :
  let conn := interleavedFrame x00 x00 x0c (rtpPacket x00 x64)
              ++ interleavedFrame x00 x00 x0c (rtpPacket x00 x69) in
  let r := runTCP [ReadFrame false; KeepAliveTick; ReadFrame false;
                   ReadFrame true]
             (NewClient conn) NewAggregator in
  fst (fst r) = ReadCancelled
  /\ totalLost (tracker (snd (fst r))) = 4
  /\ lost (snd r) = 8.
Proof. cbv zeta. repeat split; reflexivity. Qed.

(** A session that ends on a read error while its context is still live,
    or on a keep-alive error, skips [reportStats]: there the aggregator and
    the tracker agree. *)
Example runTCP_read_error_reports_once :
  let conn := interleavedFrame x00 x00 x0c (rtpPacket x00 x64)
              ++ interleavedFrame x00 x00 x0c (rtpPacket x00 x69) in
  let r := runTCP [ReadFrame false; ReadFrame false; ReadFrame false]
             (NewClient conn) NewAggregator in
  let k := runTCP [ReadFrame false; ReadFrame false; KeepAliveError]
             (NewClient conn) NewAggregator in
  fst (fst r) = ReadFailed EOF
  /\ totalLost (tracker (snd (fst r))) = 4
  /\ lost (snd r) = 4
  /\ fst (fst k) = KeepAliveFailed
  /\ totalLost (tracker (snd (fst k))) = 4
  /\ lost (snd k) = 4.
Proof. cbv zeta. repeat split; reflexivity. Qed.

(** ** Orchestrator: the cap on in-flight attempts *)

Import Bench.

Lemma NewRunner_semaphoreCap cfg :
  semaphoreCap (NewRunner cfg)
  = if 10000 <? Readers cfg
    then (if 50000 <? Z.quot (Readers cfg) 10 then 50000
          else Z.quot (Readers cfg) 10)
    else 10000.
Proof. reflexivity. Qed.

(** Outside the band 10 000 < N < 100 000 the capacity is the clamp of the
    specification. *)
Lemma semaphoreCap_clamp_outside_band cfg :
  Readers cfg <= 10000 \/ 100000 <= Readers cfg ->
  semaphoreCap (NewRunner cfg) = Spec.concurrencyCap (Readers cfg).
Proof.
  intros H. rewrite NewRunner_semaphoreCap.
  unfold Spec.concurrencyCap, Spec.clamp.
  destruct (Z.ltb_spec 10000 (Readers cfg)) as [Hn|Hn].
  - assert (Hq : 10000 <= Z.quot (Readers cfg) 10).
    { rewrite Z.quot_div_nonneg by lia.
      apply Z.div_le_lower_bound; lia. }
    destruct (Z.ltb_spec 50000 (Z.quot (Readers cfg) 10)); lia.
  - assert (Hq : Z.quot (Readers cfg) 10 <= 1000).
    { destruct (Z.le_gt_cases 0 (Readers cfg)) as [Hp|Hp].
      - rewrite Z.quot_div_nonneg by lia.
        apply Z.div_le_upper_bound; lia.
      - replace (Readers cfg) with (- (- Readers cfg)) by ring.
        rewrite Z.quot_opp_l by lia.
        pose proof (Z.quot_pos (- Readers cfg) 10). lia. }
    lia.
Qed.

(** Inside the band the capacity is N/10, below the floor of 10 000. *)
Lemma semaphoreCap_in_band cfg :
  10000 < Readers cfg < 100000 ->
  semaphoreCap (NewRunner cfg) = Z.quot (Readers cfg) 10
  /\ 1000 <= semaphoreCap (NewRunner cfg) < 10000
  /\ Spec.concurrencyCap (Readers cfg) = 10000.
Proof.
  intros H. rewrite NewRunner_semaphoreCap.
  unfold Spec.concurrencyCap, Spec.clamp.
  rewrite Z.quot_div_nonneg by lia.
  assert (H1 : 1000 <= Readers cfg / 10) by (apply Z.div_le_lower_bound; lia).
  assert (H2 : Readers cfg / 10 < 10000) by (apply Z.div_lt_upper_bound; lia).
  destruct (Z.ltb_spec 10000 (Readers cfg)); [|lia].
  destruct (Z.ltb_spec 50000 (Readers cfg / 10)); lia.
Qed.

(** C6 at N = 20 000: the semaphore gets 2 000 slots, where the clamp of the
    specification gives 10 000. At N = 10 000 and at N = 100 000 the two
    agree. *)
Theorem semaphoreCap_at_20000 :
  let cfg n := mkConfig n (60 * Second) 100 0 0 in
  semaphoreCap (NewRunner (cfg 20000)) = 2000
  /\ Spec.concurrencyCap 20000 = 10000
  /\ semaphoreCap (NewRunner (cfg 10000)) = 10000
  /\ semaphoreCap (NewRunner (cfg 10001)) = 1000
  /\ semaphoreCap (NewRunner (cfg 100000)) = Spec.concurrencyCap 100000.
Proof. cbv zeta. repeat split; reflexivity. Qed.

(** The burst of the rate limiter, computed next to it, does follow
    clamp(r/10, 10, 100): its guard is at ten times the floor. *)
Example limiterBurst_values :
  let cfg r := mkConfig 1000 (60 * Second) r 0 0 in
  limiterBurst (NewRunner (cfg 50%float)) = 10
  /\ limiterBurst (NewRunner (cfg 100%float)) = 10
  /\ limiterBurst (NewRunner (cfg 150%float)) = 15
  /\ limiterBurst (NewRunner (cfg 999%float)) = 99
  /\ limiterBurst (NewRunner (cfg 5000%float)) = 100.
Proof. cbv zeta. repeat split; vm_compute; reflexivity. Qed.

(** ** Real-world load: the target *)

Lemma adjustTargetLoad_clamped cfg hour rnd :
  minTarget cfg <= maxTarget cfg ->
  minTarget cfg <= adjustTargetLoad cfg hour rnd <= maxTarget cfg.
Proof.
  intros H. unfold adjustTargetLoad.
  set (raw := int64_of_float64 _).
  destruct (Z.ltb_spec raw (minTarget cfg));
    match goal with
    | |- context [?a <? ?b] => destruct (Z.ltb_spec a b)
    end; lia.
Qed.

Lemma realWorld_bounds_500 readers duration rate :
  let cfg := mkConfig readers duration rate 500 0.3 in
  minTarget cfg = 350 /\ maxTarget cfg = 650.
Proof. split; vm_compute; reflexivity. Qed.

(** C8. With avg = 500 and variance = 0.3 the bounds computed in float64
    are 350 and 650, and the stored target lies between them for every hour
    and every draw (every float64, so every draw of [0,1) as well). *)
Theorem adjustTargetLoad_500_within_350_650
  (readers duration : Z) (rate : float) (hour : Z) (rnd : float) :
  let cfg := mkConfig readers duration rate 500 0.3 in
  350 <= adjustTargetLoad cfg hour rnd <= 650.
Proof.
  intros cfg.
  destruct (realWorld_bounds_500 readers duration rate) as [Hmin Hmax].
  fold cfg in Hmin, Hmax.
  pose proof (adjustTargetLoad_clamped cfg hour rnd) as H.
  rewrite Hmin, Hmax in H. apply H. lia.
Qed.

(** A few evaluations: an evening hour with the largest draws hits the
    upper bound, a night hour the lower one. *)
Example adjustTargetLoad_samples :
  let cfg := mkConfig 0 0 0 500 0.3 in
  adjustTargetLoad cfg 20 0.999%float = 650
  /\ adjustTargetLoad cfg 3 0%float = 350
  /\ adjustTargetLoad cfg 10 0.5%float = 600
  /\ adjustTargetLoad cfg 12 0.5%float = 450.
Proof. cbv zeta. repeat split; vm_compute; reflexivity. Qed.

(** ** Real-world load: session lifetimes *)

Lemma wrapInt64_small z : minInt64 <= z <= maxInt64 -> wrapInt64 z = z.
Proof.
  unfold wrapInt64, minInt64, maxInt64. intros H.
  rewrite Z.mod_small; lia.
Qed.

Lemma maxDuration_cases cfg :
  maxDuration cfg
  = if minDuration <? Duration cfg then Duration cfg else 5 * Minute.
Proof.
  unfold maxDuration.
  destruct (Z.leb_spec (Duration cfg) minDuration);
    destruct (Z.ltb_spec minDuration (Duration cfg)); try reflexivity; lia.
Qed.

Lemma durationRange_value cfg :
  minInt64 <= Duration cfg <= maxInt64 ->
  durationRange cfg = maxDuration cfg - minDuration
  /\ 0 < durationRange cfg.
Proof.
  intros H. unfold durationRange.
  assert (Hm : minDuration < maxDuration cfg <= maxInt64).
  { unfold maxDuration.
    destruct (Z.leb_spec (Duration cfg) minDuration).
    - vm_compute. split; [reflexivity | discriminate].
    - lia. }
  assert (Hd : 0 < minDuration) by reflexivity.
  rewrite wrapInt64_small by (unfold minInt64, maxInt64 in *; lia).
  destruct (Z.leb_spec (maxDuration cfg - minDuration) 0); lia.
Qed.

(** C9 (as the code has it). The lifetime is [minDuration + draw] with
    [draw] in [0, durationRange): it lies in the half-open interval
    [30 s, D) when D > 30 s, and in [30 s, 5 min) when D <= 30 s (D = 30 s
    included); every duration of that interval is the lifetime of exactly
    the draw [t - 30 s], so a uniform draw gives a uniform lifetime. *)
Theorem sessionDuration_range (cfg : Config) (draw : Z) :
  minInt64 <= Duration cfg <= maxInt64 ->
  0 <= draw < durationRange cfg ->
  let upper := if minDuration <? Duration cfg then Duration cfg
               else 5 * Minute in
  minDuration <= sessionDuration cfg draw < upper
  /\ sessionDuration cfg draw = minDuration + draw
  /\ durationRange cfg = upper - minDuration
  /\ (forall t, minDuration <= t < upper ->
        0 <= t - minDuration < durationRange cfg
        /\ sessionDuration cfg (t - minDuration) = t).
Proof.
  intros HD Hdraw upper.
  destruct (durationRange_value cfg HD) as [Hr Hpos].
  rewrite maxDuration_cases in Hr. fold upper in Hr.
  assert (Hu : upper <= maxInt64).
  { subst upper. destruct (minDuration <? Duration cfg).
    - lia.
    - vm_compute. discriminate. }
  assert (Hd : 0 < minDuration) by reflexivity.
  assert (Hmin : minInt64 < 0) by reflexivity.
  unfold sessionDuration.
  rewrite wrapInt64_small by lia.
  split; [lia|]. split; [reflexivity|]. split; [exact Hr|].
  intros t Ht. split; [lia|].
  rewrite wrapInt64_small by lia. ring.
Qed.

Lemma sessionDuration_range_witness :
  let cfg := mkConfig 100 (60 * Second) 10 0 0 in
  let draw := 10 * Second in
  let upper := if minDuration <? Duration cfg then Duration cfg
               else 5 * Minute in
  minDuration <= sessionDuration cfg draw < upper
  /\ sessionDuration cfg draw = minDuration + draw
  /\ durationRange cfg = upper - minDuration
  /\ (forall t, minDuration <= t < upper ->
        0 <= t - minDuration < durationRange cfg
        /\ sessionDuration cfg (t - minDuration) = t).
Proof.
  apply (sessionDuration_range (mkConfig 100 (60 * Second) 10 0 0) (10 * Second)).
  - vm_compute. split; discriminate.
  - vm_compute. split; [discriminate | reflexivity].
Defined.

(** C9 as the specification words it fails at D = 30 s: D >= 30 s holds,
    the draw of 100 s is one [rand.Int63n] can return (the range is then
    4 min 30 s), and the lifetime is 130 s, outside [30 s, D]. *)
Lemma sessionDuration_counterexample :
  let cfg := mkConfig 100 (30 * Second) 10 0 0 in
  let draw := 100 * Second in
  30 * Second <= Duration cfg
  /\ durationRange cfg = 4 * Minute + 30 * Second
  /\ 0 <= draw < durationRange cfg
  /\ sessionDuration cfg draw = 130 * Second
  /\ ~ (30 * Second <= sessionDuration cfg draw <= Duration cfg).
Proof.
  cbv zeta. repeat split; try reflexivity; try (vm_compute; discriminate).
  vm_compute. intros [_ H]. apply H. reflexivity.
Qed.

(** ** Loss rate *)

Lemma float_neq (x y : float) : PrimFloat.eqb x y = false -> PrimFloat.eqb x x = true -> x <> y.
Proof. intros Hxy Hxx E. rewrite <- E in Hxy. congruence. Qed.

(** C10 (as the code has it). [LossRate] is total: it returns 0 when the
    uint64 sum packets + lost is 0, and otherwise the percentage
    float64(lost) * 100 / float64(packets + lost), whose divisor is the
    float64 of a non-zero sum. *)
Theorem LossRate_percentage (s : Snapshot) :
  let total := wrap64 (snapPackets s + snapLost s) in
  (total = 0 -> LossRate s = 0%float)
  /\ (total <> 0 ->
      0 < total < 0x10000000000000000
      /\ LossRate s
         = (float64_of_Z (snapLost s) * 100 / float64_of_Z total)%float).
Proof.
  intros total. unfold LossRate. fold total.
  destruct (Z.eqb_spec total 0) as [E|E]; split; intros H;
    try reflexivity; try contradiction.
  split; [|reflexivity].
  pose proof (wrap64_range (snapPackets s + snapLost s)) as R.
  fold total in R. lia.
Qed.

Example LossRate_samples :
  LossRate (TakeSnapshot NewAggregator) = 0%float
  /\ LossRate (mkSnapshot 1 1 0) = 50%float
  /\ LossRate (mkSnapshot 99 1 0) = 1%float
  /\ LossRate (mkSnapshot 3 0 0) = 0%float
  /\ LossRate (mkSnapshot 0 7 0) = 100%float.
Proof. repeat split; vm_compute; reflexivity. Qed.

(** C10 as the claim words it ("divides lost by packets + lost") fails:
    with one packet received and one lost the result is 50, not the
    quotient 1/2. *)
Lemma LossRate_counterexample :
  let s := mkSnapshot 1 1 0 in
  wrap64 (snapPackets s + snapLost s) = 2
  /\ LossRate s = 50%float
  /\ (float64_of_Z (snapLost s)
      / float64_of_Z (wrap64 (snapPackets s + snapLost s)))%float = 0.5%float
  /\ LossRate s
     <> (float64_of_Z (snapLost s)
         / float64_of_Z (wrap64 (snapPackets s + snapLost s)))%float.
Proof.
  cbv zeta. repeat split; try (vm_compute; reflexivity).
  apply float_neq; vm_compute; reflexivity.
Qed.

(** * Further properties of the code *)

(** ** Sequence tracker: forward streams *)

Lemma wrap32_add_l a b : wrap32 (wrap32 a + b) = wrap32 (a + b).
Proof. unfold wrap32. apply Zplus_mod_idemp_l. Qed.

Lemma wrap32_small z : 0 <= z < 0x100000000 -> wrap32 z = z.
Proof. intros H. unfold wrap32. apply Z.mod_small. exact H. Qed.

Lemma wrap16_small z : 0 <= z < 0x10000 -> wrap16 z = z.
Proof. intros H. unfold wrap16. apply Z.mod_small. exact H. Qed.

Lemma wrap16_add_l a b : wrap16 (wrap16 a + b) = wrap16 (a + b).
Proof. unfold wrap16. apply Zplus_mod_idemp_l. Qed.

(** One step forward by [d] from [l], on 16 bits. *)
Lemma forward_step_arith l d :
  0 <= l < 0x10000 -> 1 <= d < 0x8000 ->
  wrap16 (wrap16 (l + d) - l) = d
  /\ (wrap16 (l + d) <? l) = ((l + d) / 0x10000 =? 1)
  /\ 0 <= (l + d) / 0x10000 <= 1.
Proof.
  intros Hl Hd.
  assert (E : wrap16 (wrap16 (l + d) - l) = d).
  { unfold wrap16. rewrite Zminus_mod_idemp_l.
    replace (l + d - l) with d by ring. apply Z.mod_small. lia. }
  split; [exact E|]. unfold wrap16.
  destruct (Z.lt_ge_cases (l + d) 0x10000) as [Hs|Hb].
  - rewrite Z.mod_small, Z.div_small by lia.
    split; [|lia]. apply Z.ltb_ge. lia.
  - assert (Hq : (l + d) / 0x10000 = 1).
    { symmetry. apply (Z.div_unique _ _ 1 (l + d - 0x10000)); lia. }
    assert (Hm : (l + d) mod 0x10000 = l + d - 0x10000).
    { symmetry. apply (Z.mod_unique _ _ 1 (l + d - 0x10000)); lia. }
    rewrite Hq, Hm. split; [|lia]. apply Z.ltb_lt. lia.
Qed.

(** A push in the forward region, distance [d] with 1 <= d < 0x8000: the
    whole effect. *)
Lemma Push_forward s seq :
  initialized s = true ->
  1 <= wrap16 (seq - lastSeq s) < 0x8000 ->
  let d := wrap16 (seq - lastSeq s) in
  let t := fst (Push s seq) in
  snd (Push s seq) = d - 1
  /\ initialized t = true
  /\ lastSeq t = seq
  /\ totalLost t = (if 1 <? d then wrap64 (totalLost s + (d - 1))
                    else totalLost s)
  /\ totalPkts t = wrap64 (totalPkts s + 1)
  /\ cycles t = (if seq <? lastSeq s then wrap32 (cycles s + 1)
                 else cycles s).
Proof.
  intros Hi Hd d t. subst d t. unfold Push, updateSequence. rewrite Hi.
  destruct (Z.ltb_spec (wrap16 (seq - lastSeq s)) 0x8000); [|lia].
  destruct (Z.ltb_spec 0 (wrap16 (seq - lastSeq s))); [|lia].
  destruct (Z.ltb_spec 1 (wrap16 (seq - lastSeq s)));
    destruct (seq <? lastSeq s); tracker_simpl; rewrite ?Hi;
    repeat split; lia.
Qed.

Lemma pushAll_forwardFrom ds : forall s,
  initialized s = true ->
  0 <= lastSeq s < 0x10000 ->
  0 <= totalLost s < 0x10000000000000000 ->
  Forall (fun d => 1 <= d < 0x8000) ds ->
  let t := pushAll (forwardFrom (lastSeq s) ds) s in
  initialized t = true
  /\ lastSeq t = wrap16 (lastSeq s + sumZ ds)
  /\ totalLost t = wrap64 (totalLost s + (sumZ ds - Z.of_nat (length ds)))
  /\ wrap64 (totalPkts t) = wrap64 (totalPkts s + Z.of_nat (length ds))
  /\ wrap32 (cycles t)
     = wrap32 (cycles s + (lastSeq s + sumZ ds) / 0x10000).
Proof.
  induction ds as [|d ds IH]; intros s Hi Hl Ht HF t.
  - subst t. cbn [forwardFrom]. unfold pushAll, sumZ.
    cbn [fold_left fold_right length]. change (Z.of_nat 0) with 0.
    change (0 - 0) with 0. rewrite !Z.add_0_r.
    split; [exact Hi|].
    split; [symmetry; apply wrap16_small; exact Hl|].
    split; [symmetry; apply wrap64_small; exact Ht|].
    split; [reflexivity|].
    rewrite Z.div_small by exact Hl. rewrite Z.add_0_r. reflexivity.
  - inversion HF as [|? ? Hd HF']; subst.
    destruct (forward_step_arith (lastSeq s) d Hl Hd) as (Ed & Elt & Eq).
    assert (Hd' : 1 <= wrap16 (wrap16 (lastSeq s + d) - lastSeq s) < 0x8000)
      by (rewrite Ed; exact Hd).
    destruct (Push_forward s (wrap16 (lastSeq s + d)) Hi Hd')
      as (_ & Hi1 & Hl1 & Ht1 & Hp1 & Hc1).
    rewrite Ed in Ht1.
    set (s1 := fst (Push s (wrap16 (lastSeq s + d)))) in *.
    assert (Hr1 : 0 <= lastSeq s1 < 0x10000)
      by (rewrite Hl1; apply wrap16_range).
    assert (Ht1' : totalLost s1 = wrap64 (totalLost s + (d - 1))).
    { rewrite Ht1. destruct (Z.ltb_spec 1 d); [reflexivity|].
      assert (d = 1) as -> by lia. rewrite Z.sub_diag, Z.add_0_r.
      symmetry. apply wrap64_small. exact Ht. }
    assert (Hr2 : 0 <= totalLost s1 < 0x10000000000000000)
      by (rewrite Ht1'; apply wrap64_range).
    destruct (IH s1 Hi1 Hr1 Hr2 HF') as (Gi & Gl & Gt & Gp & Gc).
    subst t. cbn [forwardFrom]. rewrite pushAll_cons. fold s1.
    rewrite <- Hl1. cbn [sumZ fold_right length]. fold (sumZ ds).
    split; [exact Gi|].
    split. { rewrite Gl, Hl1, wrap16_add_l. f_equal. ring. }
    split. { rewrite Gt, Ht1', wrap64_add_l. f_equal.
             rewrite Nat2Z.inj_succ. ring. }
    split. { rewrite Gp, Hp1, wrap64_add_l. f_equal.
             rewrite Nat2Z.inj_succ. ring. }
    rewrite Gc, Hc1, Hl1, Elt.
    assert (Ediv : (lastSeq s + d) / 0x10000
                   + (wrap16 (lastSeq s + d) + sumZ ds) / 0x10000
                   = (lastSeq s + (d + sumZ ds)) / 0x10000).
    { unfold wrap16. Z.div_mod_to_equations. lia. }
    rewrite <- Ediv.
    destruct (Z.eqb_spec ((lastSeq s + d) / 0x10000) 1) as [E1|E1].
    + rewrite E1, wrap32_add_l. f_equal. ring.
    + assert (E0 : (lastSeq s + d) / 0x10000 = 0) by lia.
      rewrite E0. f_equal.
Qed.

Lemma wrap32_range z : 0 <= wrap32 z < 0x100000000.
Proof. unfold wrap32. apply Z.mod_pos_bound. lia. Qed.

Lemma Push_inRange s seq : inRange s -> inRange (fst (Push s seq)).
Proof.
  intros (Hl & Hp & Hc). unfold inRange, Push, updateSequence.
  destruct (initialized s); [|unfold initSequence; tracker_simpl; lia].
  pose proof wrap64_range as W64. pose proof wrap32_range as W32.
  split_ifs; tracker_simpl; repeat split;
    try apply W64; try apply W32; lia.
Qed.

Lemma pushAll_inRange l : forall s, inRange s -> inRange (pushAll l s).
Proof.
  induction l as [|q l IH]; intros s H.
  - exact H.
  - rewrite pushAll_cons. apply IH, Push_inRange, H.
Qed.

Lemma NewSeqTracker_inRange : inRange NewSeqTracker.
Proof. unfold inRange. cbn. lia. Qed.

(** Every push is counted: on an initialized tracker, and on a fresh one. *)
Lemma Push_totalPkts s seq :
  initialized s = true \/ totalPkts s = 0 ->
  totalPkts (fst (Push s seq)) = wrap64 (totalPkts s + 1).
Proof.
  intros H. unfold Push. destruct (initialized s) eqn:Hi.
  - unfold updateSequence.
    repeat match goal with
           | |- context [if ?b then _ else _] => destruct b
           end; reflexivity.
  - destruct H as [H|H]; [discriminate|]. rewrite H. reflexivity.
Qed.

(** X: [totalPkts] is the number of pushes. From a fresh tracker, after any
    stream of sequence numbers (in order or not, duplicates included),
    [totalPkts] is the length of the stream on 64 bits. *)
Theorem totalPkts_counts_pushes (seqs : list Z) :
  totalPkts (pushAll seqs NewSeqTracker)
  = wrap64 (Z.of_nat (length seqs)).
Proof.
  assert (G : forall l s,
             initialized s = true \/ totalPkts s = 0 ->
             wrap64 (totalPkts (pushAll l s))
             = wrap64 (totalPkts s + Z.of_nat (length l))).
  { induction l as [|q l IH]; intros s H.
    - cbn. f_equal. ring.
    - rewrite pushAll_cons, IH by (left; apply Push_initialized).
      rewrite (Push_totalPkts s q H), wrap64_add_l.
      f_equal. cbn [length]. rewrite Nat2Z.inj_succ. ring. }
  pose proof (pushAll_inRange seqs _ NewSeqTracker_inRange) as (_ & Hp & _).
  rewrite <- (wrap64_small _ Hp). rewrite G by (right; reflexivity).
  reflexivity.
Qed.

(** X: loss accounting on a forward stream. From a fresh tracker, push [q]
    and then numbers that each lie 1 <= d < 0x8000 ahead of the previous
    one (mod 2^16). Then [lastSeq] is the 16-bit end of the stream, [cycles]
    the number of 16-bit wraps, and [totalLost] the numbers skipped: the span
    of the stream minus the steps taken. *)
Theorem forward_stream_accounting (q : Z) (ds : list Z) :
  0 <= q < 0x10000 ->
  Forall (fun d => 1 <= d < 0x8000) ds ->
  let t := pushAll (q :: forwardFrom q ds) NewSeqTracker in
  lastSeq t = wrap16 (q + sumZ ds)
  /\ cycles t = wrap32 ((q + sumZ ds) / 0x10000)
  /\ totalLost t = wrap64 (sumZ ds - Z.of_nat (length ds))
  /\ totalPkts t = wrap64 (Z.of_nat (length ds) + 1).
Proof.
  intros Hq HF t.
  set (s := fst (Push NewSeqTracker q)).
  assert (Hs : s = mkSeqTracker true q 0 1 0 q q (wrap32 (q + 1)) 0)
    by reflexivity.
  assert (Hi : initialized s = true) by reflexivity.
  assert (Hl : 0 <= lastSeq s < 0x10000) by (rewrite Hs; exact Hq).
  assert (Ht : 0 <= totalLost s < 0x10000000000000000)
    by (rewrite Hs; cbn; lia).
  destruct (pushAll_forwardFrom ds s Hi Hl Ht HF) as (_ & Gl & Gt & Gp & Gc).
  assert (R : inRange t)
    by (apply pushAll_inRange, NewSeqTracker_inRange).
  destruct R as (_ & Rp & Rc).
  subst t. rewrite pushAll_cons in *. fold s in Rp, Rc |- *.
  change (lastSeq s) with q in Gl, Gc |- *.
  change (forwardFrom (lastSeq s) ds) with (forwardFrom q ds) in *.
  change (totalLost s) with 0 in Gt. change (totalPkts s) with 1 in Gp.
  change (cycles s) with 0 in Gc.
  rewrite (wrap64_small _ Rp) in Gp. rewrite (wrap32_small _ Rc) in Gc.
  rewrite Gl, Gc, Gt, Gp. repeat split; f_equal; ring.
Qed.

Lemma forward_stream_accounting_witness :
  let t := pushAll (65533 :: forwardFrom 65533 [5; 1; 3]) NewSeqTracker in
  lastSeq t = wrap16 (65533 + sumZ [5; 1; 3])
  /\ cycles t = wrap32 ((65533 + sumZ [5; 1; 3]) / 0x10000)
  /\ totalLost t = wrap64 (sumZ [5; 1; 3] - Z.of_nat (length [5; 1; 3]))
  /\ totalPkts t = wrap64 (Z.of_nat (length [5; 1; 3]) + 1).
Proof.
  apply (forward_stream_accounting 65533 [5; 1; 3]).
  - lia.
  - repeat constructor; lia.
Defined.

Lemma sumZ_repeat_1 n : sumZ (repeat 1 n) = Z.of_nat n.
Proof.
  induction n as [|n IH]; [reflexivity|].
  cbn [repeat sumZ fold_right]. fold (sumZ (repeat 1 n)).
  rewrite IH, Nat2Z.inj_succ. ring.
Qed.

(** X: an in-order stream loses nothing. From a fresh tracker, [q] followed
    by the next [n] numbers in order (wrapping at 2^16 as often as it takes)
    leaves [totalLost] at 0 and counts every wrap in [cycles]. *)
Theorem in_order_stream_no_loss (q : Z) (n : nat) :
  0 <= q < 0x10000 ->
  let t := pushAll (q :: forwardFrom q (repeat 1 n)) NewSeqTracker in
  totalLost t = 0
  /\ lastSeq t = wrap16 (q + Z.of_nat n)
  /\ cycles t = wrap32 ((q + Z.of_nat n) / 0x10000).
Proof.
  intros Hq t.
  set (s := fst (Push NewSeqTracker q)).
  assert (HF : Forall (fun d => 1 <= d < 0x8000) (repeat 1 n)).
  { apply Forall_forall. intros d Hd. apply repeat_spec in Hd. lia. }
  assert (Hl : 0 <= lastSeq s < 0x10000) by exact Hq.
  assert (Ht : 0 <= totalLost s < 0x10000000000000000) by (cbn; lia).
  destruct (pushAll_forwardFrom (repeat 1 n) s eq_refl Hl Ht HF)
    as (_ & Gl & Gt & _ & Gc).
  assert (R : inRange t)
    by (apply pushAll_inRange, NewSeqTracker_inRange).
  destruct R as (_ & _ & Rc).
  subst t. rewrite pushAll_cons in *. fold s in Rc |- *.
  change (lastSeq s) with q in Gl, Gc |- *.
  change (forwardFrom (lastSeq s) (repeat 1 n))
    with (forwardFrom q (repeat 1 n)) in *.
  change (totalLost s) with 0 in Gt. change (cycles s) with 0 in Gc.
  rewrite (wrap32_small _ Rc) in Gc.
  rewrite sumZ_repeat_1 in Gl, Gt, Gc. rewrite repeat_length in Gt.
  rewrite Gl, Gc, Gt. rewrite Z.sub_diag. repeat split.
Qed.

Lemma in_order_stream_no_loss_witness :
  let t := pushAll (65534 :: forwardFrom 65534 (repeat 1 5)) NewSeqTracker in
  totalLost t = 0
  /\ lastSeq t = wrap16 (65534 + Z.of_nat 5)
  /\ cycles t = wrap32 ((65534 + Z.of_nat 5) / 0x10000).
Proof. apply (in_order_stream_no_loss 65534 5). lia. Defined.

Lemma wrap16_sub a b : wrap16 (wrap16 a - wrap16 b) = wrap16 (a - b).
Proof.
  unfold wrap16. rewrite Zminus_mod_idemp_l, Zminus_mod_idemp_r. reflexivity.
Qed.

Lemma wrap16_sub_l a b : wrap16 (wrap16 a - b) = wrap16 (a - b).
Proof. unfold wrap16. apply Zminus_mod_idemp_l. Qed.

(** X: two neighbours swapped are counted as two losses. On an initialized
    tracker whose last number is [l], the numbers l+1, l+2, l+3 pushed as
    l+2, l+1, l+3 all arrive, yet [totalLost] goes up by 2: one for the
    jump to l+2, and one more after the late l+1 has pulled [lastSeq]
    back. *)
Theorem adjacent_swap_counts_two_lost (s : SeqTracker) :
  initialized s = true ->
  let l := lastSeq s in
  let t := pushAll [wrap16 (l + 2); wrap16 (l + 1); wrap16 (l + 3)] s in
  totalLost t = wrap64 (totalLost s + 2)
  /\ lastSeq t = wrap16 (l + 3)
  /\ totalPkts t = wrap64 (totalPkts s + 3).
Proof.
  intros Hi l t. subst t. unfold pushAll. cbn [fold_left].
  (* l -> l+2 : forward by 2 *)
  assert (D1 : wrap16 (wrap16 (l + 2) - lastSeq s) = 2).
  { fold l. rewrite wrap16_sub_l. replace (l + 2 - l) with 2 by ring.
    reflexivity. }
  destruct (Push_forward s (wrap16 (l + 2)) Hi) as (_ & I1 & L1 & T1 & P1 & _).
  { rewrite D1. lia. }
  rewrite D1 in T1. change (1 <? 2) with true in T1. cbn iota in T1.
  set (s1 := fst (Push s (wrap16 (l + 2)))) in *.
  (* l+2 -> l+1 : behind *)
  assert (D2 : 0x8000 < wrap16 (wrap16 (l + 1) - lastSeq s1)).
  { rewrite L1, wrap16_sub. replace (l + 1 - (l + 2)) with (-1) by ring.
    reflexivity. }
  assert (E2 : Push s1 (wrap16 (l + 1))
               = (countPacket (set_lastSeq (wrap16 (l + 1)) s1), 0)).
  { unfold Push. rewrite I1. apply updateSequence_backward. exact D2. }
  rewrite E2. cbn [fst].
  set (s2 := countPacket (set_lastSeq (wrap16 (l + 1)) s1)).
  assert (I2 : initialized s2 = true) by exact I1.
  (* l+1 -> l+3 : forward by 2 *)
  assert (D3 : wrap16 (wrap16 (l + 3) - lastSeq s2) = 2).
  { change (lastSeq s2) with (wrap16 (l + 1)). rewrite wrap16_sub.
    replace (l + 3 - (l + 1)) with 2 by ring. reflexivity. }
  destruct (Push_forward s2 (wrap16 (l + 3)) I2) as (_ & _ & L3 & T3 & P3 & _).
  { rewrite D3. lia. }
  rewrite D3 in T3. change (1 <? 2) with true in T3. cbn iota in T3.
  rewrite L3, T3, P3.
  change (totalLost s2) with (totalLost s1).
  change (totalPkts s2) with (wrap64 (totalPkts s1 + 1)).
  rewrite T1, P1. rewrite !wrap64_add_l.
  split; [f_equal; ring|]. split; [reflexivity|].
  rewrite <- Z.add_assoc, wrap64_add_l. f_equal. ring.
Qed.

Lemma adjacent_swap_counts_two_lost_witness :
  let s := pushAll [98] NewSeqTracker in
  let l := lastSeq s in
  let t := pushAll [wrap16 (l + 2); wrap16 (l + 1); wrap16 (l + 3)] s in
  totalLost t = wrap64 (totalLost s + 2)
  /\ lastSeq t = wrap16 (l + 3)
  /\ totalPkts t = wrap64 (totalPkts s + 3).
Proof.
  apply (adjacent_swap_counts_two_lost (pushAll [98] NewSeqTracker)).
  reflexivity.
Defined.

(** ** Sessions: what reaches the aggregator *)

Lemma processRTPPacket_set_reader d r c a :
  processRTPPacket d (set_reader r c) a
  = (set_reader r (fst (processRTPPacket d c a)),
     snd (processRTPPacket d c a)).
Proof.
  unfold processRTPPacket, set_reader.
  destruct (len d <? 12); [reflexivity|]. cbn [tracker bytesReceived packetsRcvd reader].
  destruct (Push (tracker c) _) as [t nlost]. reflexivity.
Qed.

(** One turn of [readInterleavedFrame] either leaves the statistics alone
    or is one [processRTPPacket] on a payload of at least 12 bytes. *)
Lemma readInterleavedFrame_cases c a :
  let r := readInterleavedFrame c a in
  (tracker (snd (fst r)) = tracker c
   /\ packetsRcvd (snd (fst r)) = packetsRcvd c
   /\ snd r = a)
  \/ (fst (fst r) = None
      /\ exists payload,
           12 <= len payload
           /\ tracker (snd (fst r)) = tracker (fst (processRTPPacket payload c a))
           /\ packetsRcvd (snd (fst r))
              = packetsRcvd (fst (processRTPPacket payload c a))
           /\ snd r = snd (processRTPPacket payload c a)).
Proof.
  unfold readInterleavedFrame.
  destruct (ReadByte (reader c)) as [[e|magic] r0]; [left; repeat split|].
  destruct (negb (Byte.eqb magic magicByte)).
  - destruct (ReadString newline r0) as [[e|l] r1]; left; repeat split.
  - match goal with
    | |- context [bind ?m ?k r0] => destruct (bind m k r0) as [[e|[[ch ln] pl]] r1]
    end; [left; repeat split|].
    destruct (byteZ ch =? 0); cbn [andb]; [|left; repeat split].
    destruct (Z.leb_spec 12 (len pl)) as [Hl|Hl]; [|left; repeat split].
    right. rewrite processRTPPacket_set_reader. cbn [fst snd tracker packetsRcvd set_reader].
    split; [reflexivity|]. exists pl. repeat split; try exact Hl.
Qed.

(** A property of the statistics that every [processRTPPacket] keeps is
    kept by every turn of the TCP receive loop. *)
Lemma readInterleavedFrame_keeps
  (P : SeqTracker -> Z -> Aggregator -> Prop) :
  (forall d c a, P (tracker c) (packetsRcvd c) a ->
     P (tracker (fst (processRTPPacket d c a)))
       (packetsRcvd (fst (processRTPPacket d c a)))
       (snd (processRTPPacket d c a))) ->
  forall c a, P (tracker c) (packetsRcvd c) a ->
    let r := readInterleavedFrame c a in
    P (tracker (snd (fst r))) (packetsRcvd (snd (fst r))) (snd r).
Proof.
  intros Hstep c a H r. subst r.
  destruct (readInterleavedFrame_cases c a) as [(Et & Ep & Ea)|(_ & pl & _ & Et & Ep & Ea)];
    rewrite Et, Ep, Ea; [exact H | apply Hstep; exact H].
Qed.

Lemma receiveDatagrams_keeps
  (P : SeqTracker -> Z -> Aggregator -> Prop) :
  (forall d c a, P (tracker c) (packetsRcvd c) a ->
     P (tracker (fst (processRTPPacket d c a)))
       (packetsRcvd (fst (processRTPPacket d c a)))
       (snd (processRTPPacket d c a))) ->
  forall dgrams c a, P (tracker c) (packetsRcvd c) a ->
    let r := receiveDatagrams dgrams c a in
    P (tracker (fst r)) (packetsRcvd (fst r)) (snd r).
Proof.
  intros Hstep dgrams. unfold receiveDatagrams.
  induction dgrams as [|d dgrams IH]; intros c a H.
  - exact H.
  - cbn [fold_left fst snd]. destruct (12 <=? len d).
    + specialize (Hstep d c a H).
      destruct (processRTPPacket d c a) as [c1 a1]. apply IH. exact Hstep.
    + apply IH. exact H.
Qed.

(** The state in which the TCP receive loop reaches its exit: after an
    exit that reports, the aggregator is [reportStats] of a state that
    satisfies the property; after one that does not, the state itself
    does. *)
Lemma runTCP_keeps (P : SeqTracker -> Z -> Aggregator -> Prop) :
  (forall d c a, P (tracker c) (packetsRcvd c) a ->
     P (tracker (fst (processRTPPacket d c a)))
       (packetsRcvd (fst (processRTPPacket d c a)))
       (snd (processRTPPacket d c a))) ->
  forall turns c a, P (tracker c) (packetsRcvd c) a ->
    let r := runTCP turns c a in
    if reported (fst (fst r))
    then exists a1,
        P (tracker (snd (fst r))) (packetsRcvd (snd (fst r))) a1
        /\ snd r = reportStats (snd (fst r)) a1
    else P (tracker (snd (fst r))) (packetsRcvd (snd (fst r))) (snd r).
Proof.
  intros Hstep. induction turns as [|t turns IH]; intros c a H.
  - cbn. exists a. split; [exact H | reflexivity].
  - destruct t as [cancelled| |]; cbn [runTCP].
    + pose proof (readInterleavedFrame_keeps P Hstep c a H) as K.
      cbn zeta in K.
      destruct (readInterleavedFrame c a) as [[[e|] c1] a1];
        cbn [fst snd] in *.
      * destruct cancelled; cbn [fst snd reported].
        -- exists a1. split; [exact K | reflexivity].
        -- exact K.
      * apply IH. exact K.
    + apply IH. exact H.
    + cbn [fst snd reported]. exact H.
Qed.

Lemma reportStats_fields c a :
  packets (reportStats c a) = packets a
  /\ bytes (reportStats c a) = bytes a
  /\ lost (reportStats c a)
     = if 0 <? totalLost (tracker c)
       then wrap64 (lost a + totalLost (tracker c))
       else lost a.
Proof.
  unfold reportStats, GetStats, AddLoss. cbn [Lost].
  destruct (0 <? totalLost (tracker c)); repeat split; reflexivity.
Qed.

Lemma reportStats_lost_nonneg c a :
  0 <= totalLost (tracker c) ->
  wrap64 (lost (reportStats c a)) = wrap64 (lost a + totalLost (tracker c)).
Proof.
  intros H. destruct (reportStats_fields c a) as (_ & _ & E). rewrite E.
  destruct (Z.ltb_spec 0 (totalLost (tracker c))).
  - apply wrap64_idem.
  - assert (Hz : totalLost (tracker c) = 0) by lia. rewrite Hz, Z.add_0_r.
    reflexivity.
Qed.

(** X: on the TCP path the loss reaches the aggregator once or twice. From a
    fresh client and whatever turns the loop takes, a session that leaves
    through [reportStats] (the context done, or a read error seen with the
    context cancelled) has added its tracker's [totalLost] to the aggregator
    twice; one that leaves on a read error with the context live, or on a
    keep-alive error, has added it once. *)
Theorem runTCP_lost_once_or_twice (conn : list byte) (turns : list turn)
  (a0 : Aggregator) :
  0 <= lost a0 < 0x10000000000000000 ->
  let r := runTCP turns (NewClient conn) a0 in
  let t := tracker (snd (fst r)) in
  match fst (fst r) with
  | CtxDone | ReadCancelled =>
      lost (snd r) = wrap64 (lost a0 + 2 * totalLost t)
  | ReadFailed _ | KeepAliveFailed =>
      lost (snd r) = wrap64 (lost a0 + totalLost t)
  end.
Proof.
  intros H0 r t. subst t r.
  set (P := fun (t : SeqTracker) (_ : Z) (a : Aggregator) =>
              0 <= totalLost t
              /\ 0 <= lost a < 0x10000000000000000
              /\ lost a = wrap64 (lost a0 + totalLost t)).
  assert (Hstep : forall d c a, P (tracker c) (packetsRcvd c) a ->
            P (tracker (fst (processRTPPacket d c a)))
              (packetsRcvd (fst (processRTPPacket d c a)))
              (snd (processRTPPacket d c a))).
  { intros d c a H. exact (processRTPPacket_lossAccounted (lost a0) d c a H). }
  assert (I0 : P (tracker (NewClient conn)) (packetsRcvd (NewClient conn)) a0).
  { unfold P. cbn. rewrite Z.add_0_r, wrap64_small by lia. lia. }
  pose proof (runTCP_keeps P Hstep turns (NewClient conn) a0 I0) as K.
  cbn zeta in K.
  assert (Twice : forall c1 a1,
            (exists a2, P (tracker c1) (packetsRcvd c1) a2
                        /\ a1 = reportStats c1 a2) ->
            lost a1 = wrap64 (lost a0 + 2 * totalLost (tracker c1))).
  { intros c1 a1 (a2 & (Ht & Hr & Heq) & Ea). subst a1.
    destruct (reportStats_fields c1 a2) as (_ & _ & E). rewrite E.
    destruct (Z.ltb_spec 0 (totalLost (tracker c1))).
    - rewrite Heq, wrap64_add_l. f_equal. ring.
    - assert (Hz : totalLost (tracker c1) = 0) by lia.
      rewrite Heq, Hz. reflexivity. }
  destruct (runTCP turns (NewClient conn) a0) as [[x c1] a1].
  destruct x as [| |e|]; cbn [fst snd reported] in *.
  - apply Twice. exact K.
  - apply Twice. exact K.
  - destruct K as (_ & _ & K). exact K.
  - destruct K as (_ & _ & K). exact K.
Qed.

Lemma runTCP_lost_once_or_twice_witness :
  let conn := frameOf x00 (rtpPacket x00 x64) ++ frameOf x00 (rtpPacket x00 x69) in
  let turns := [ReadFrame false; ReadFrame false; ReadFrame true] in
  let r := runTCP turns (NewClient conn) NewAggregator in
  let t := tracker (snd (fst r)) in
  match fst (fst r) with
  | CtxDone | ReadCancelled =>
      lost (snd r) = wrap64 (lost NewAggregator + 2 * totalLost t)
  | ReadFailed _ | KeepAliveFailed =>
      lost (snd r) = wrap64 (lost NewAggregator + totalLost t)
  end.
Proof.
  apply (runTCP_lost_once_or_twice
           (frameOf x00 (rtpPacket x00 x64) ++ frameOf x00 (rtpPacket x00 x69))
           [ReadFrame false; ReadFrame false; ReadFrame true] NewAggregator).
  vm_compute. split; [discriminate | reflexivity].
Defined.

Lemma runUDP_lost_twice_witness :
  let dgrams := [rtpPacket x00 x64; rtpPacket x00 x69] in
  let c := fst (runUDP dgrams (NewClient []) NewAggregator) in
  let a := snd (runUDP dgrams (NewClient []) NewAggregator) in
  lost a = wrap64 (lost NewAggregator + 2 * totalLost (tracker c)).
Proof.
  apply (runUDP_lost_twice [rtpPacket x00 x64; rtpPacket x00 x69] NewAggregator).
  vm_compute. split; [discriminate | reflexivity].
Defined.

Lemma processRTPPacket_packets base d c a :
  (initialized (tracker c) = true \/ totalPkts (tracker c) = 0)
  /\ packetsRcvd c = totalPkts (tracker c)
  /\ packets a = wrap64 (base + totalPkts (tracker c)) ->
  (initialized (tracker (fst (processRTPPacket d c a))) = true
   \/ totalPkts (tracker (fst (processRTPPacket d c a))) = 0)
  /\ packetsRcvd (fst (processRTPPacket d c a))
     = totalPkts (tracker (fst (processRTPPacket d c a)))
  /\ packets (snd (processRTPPacket d c a))
     = wrap64 (base + totalPkts (tracker (fst (processRTPPacket d c a)))).
Proof.
  intros (Hi & Hp & Ha).
  destruct (Z.lt_ge_cases (len d) 12) as [Hs|Hlong].
  - rewrite processRTPPacket_short by exact Hs. auto.
  - rewrite (processRTPPacket_long d c a Hlong).
    cbn [fst snd tracker packetsRcvd].
    set (seq := BigEndianUint16 (nth 2 d x00) (nth 3 d x00)).
    rewrite (Push_totalPkts (tracker c) seq Hi).
    split; [left; apply Push_initialized|].
    split; [rewrite Hp; reflexivity|].
    unfold AddPackets, AddLoss. cbn [Z.ltb Z.compare].
    destruct (0 <? snd (Push (tracker c) seq)); cbn [packets];
      rewrite Ha, wrap64_add_l, wrap64_add_r; f_equal; ring.
Qed.

(** X: every packet the tracker counts, the aggregator counts. From a fresh
    client, on the UDP path and on the TCP path, however the session ends,
    the aggregator's packet counter has grown by the tracker's [totalPkts],
    which is also the client's own [packetsRcvd]. *)
Theorem session_packets_match_tracker (a0 : Aggregator) :
  0 <= packets a0 < 0x10000000000000000 ->
  (forall dgrams,
     let r := runUDP dgrams (NewClient []) a0 in
     packets (snd r) = wrap64 (packets a0 + totalPkts (tracker (fst r)))
     /\ packetsRcvd (fst r) = totalPkts (tracker (fst r)))
  /\ (forall conn turns,
        let r := runTCP turns (NewClient conn) a0 in
        packets (snd r)
        = wrap64 (packets a0 + totalPkts (tracker (snd (fst r))))
        /\ packetsRcvd (snd (fst r)) = totalPkts (tracker (snd (fst r)))).
Proof.
  intros H0.
  set (P := fun (t : SeqTracker) (pr : Z) (a : Aggregator) =>
              (initialized t = true \/ totalPkts t = 0)
              /\ pr = totalPkts t
              /\ packets a = wrap64 (packets a0 + totalPkts t)).
  assert (Hstep : forall d c a, P (tracker c) (packetsRcvd c) a ->
            P (tracker (fst (processRTPPacket d c a)))
              (packetsRcvd (fst (processRTPPacket d c a)))
              (snd (processRTPPacket d c a))).
  { intros d c a H. exact (processRTPPacket_packets (packets a0) d c a H). }
  assert (I0 : forall conn,
            P (tracker (NewClient conn)) (packetsRcvd (NewClient conn)) a0).
  { intros conn. unfold P. cbn. rewrite Z.add_0_r, wrap64_small by lia.
    auto. }
  split.
  - intros dgrams r. subst r. unfold runUDP.
    pose proof (receiveDatagrams_keeps P Hstep dgrams _ _ (I0 [])) as K.
    cbn zeta in K.
    destruct (receiveDatagrams dgrams (NewClient []) a0) as [c1 a1].
    cbn [fst snd] in *. destruct K as (_ & Kp & Ka).
    destruct (reportStats_fields c1 a1) as (E & _ & _).
    rewrite E. split; [exact Ka | exact Kp].
  - intros conn turns r. subst r.
    pose proof (runTCP_keeps P Hstep turns _ _ (I0 conn)) as K. cbn zeta in K.
    destruct (runTCP turns (NewClient conn) a0) as [[x c1] a1].
    cbn [fst snd] in *.
    destruct (reported x).
    + destruct K as (a2 & (_ & Kp & Ka) & Ea). subst a1.
      destruct (reportStats_fields c1 a2) as (E & _ & _).
      rewrite E. split; [exact Ka | exact Kp].
    + destruct K as (_ & Kp & Ka). split; [exact Ka | exact Kp].
Qed.

Lemma session_packets_match_tracker_witness :
  (forall dgrams,
     let r := runUDP dgrams (NewClient []) NewAggregator in
     packets (snd r)
     = wrap64 (packets NewAggregator + totalPkts (tracker (fst r)))
     /\ packetsRcvd (fst r) = totalPkts (tracker (fst r)))
  /\ (forall conn turns,
        let r := runTCP turns (NewClient conn) NewAggregator in
        packets (snd r)
        = wrap64 (packets NewAggregator + totalPkts (tracker (snd (fst r))))
        /\ packetsRcvd (snd (fst r)) = totalPkts (tracker (snd (fst r)))).
Proof.
  apply (session_packets_match_tracker NewAggregator).
  vm_compute. split; [discriminate | reflexivity].
Defined.

(** X: no session ever adds to the aggregator's byte counter. Whatever
    arrives, on the UDP path and on the TCP path, and however the session
    ends, [bytes] is what it was before. *)
Theorem session_never_adds_bytes :
  (forall dgrams c a, bytes (snd (runUDP dgrams c a)) = bytes a)
  /\ (forall turns c a, bytes (snd (runTCP turns c a)) = bytes a).
Proof.
  assert (Hstep : forall b0 d c a,
            (fun (_ : SeqTracker) (_ : Z) (x : Aggregator) => bytes x = b0)
              (tracker c) (packetsRcvd c) a ->
            (fun (_ : SeqTracker) (_ : Z) (x : Aggregator) => bytes x = b0)
              (tracker (fst (processRTPPacket d c a)))
              (packetsRcvd (fst (processRTPPacket d c a)))
              (snd (processRTPPacket d c a))).
  { intros b0 d c a H. cbn beta in *. rewrite processRTPPacket_bytes. exact H. }
  split.
  - intros dgrams c a. unfold runUDP.
    pose proof (receiveDatagrams_keeps _ (Hstep (bytes a)) dgrams c a eq_refl) as K.
    cbn beta zeta in K.
    destruct (receiveDatagrams dgrams c a) as [c1 a1]. cbn [fst snd] in *.
    destruct (reportStats_fields c1 a1) as (_ & E & _). rewrite E. exact K.
  - intros turns c a.
    pose proof (runTCP_keeps _ (Hstep (bytes a)) turns c a eq_refl) as K.
    cbn beta zeta in K.
    destruct (runTCP turns c a) as [[x c1] a1]. cbn [fst snd] in *.
    destruct (reported x).
    + destruct K as (a2 & K & Ea). subst a1.
      destruct (reportStats_fields c1 a2) as (_ & E & _). rewrite E. exact K.
    + exact K.
Qed.

(** X: a read error leaves the statistics alone. Whenever
    [readInterleavedFrame] returns an error, the tracker, the client's
    counters and the aggregator are exactly what they were: a frame cut
    short is never half counted. *)
Theorem readInterleavedFrame_error_changes_nothing
  (c : Client) (a : Aggregator) (e : error) :
  fst (fst (readInterleavedFrame c a)) = Some e ->
  let c' := snd (fst (readInterleavedFrame c a)) in
  tracker c' = tracker c
  /\ packetsRcvd c' = packetsRcvd c
  /\ bytesReceived c' = bytesReceived c
  /\ snd (readInterleavedFrame c a) = a.
Proof.
  unfold readInterleavedFrame.
  destruct (ReadByte (reader c)) as [[e0|magic] r0];
    [intros _; repeat split|].
  destruct (negb (Byte.eqb magic magicByte)).
  - destruct (ReadString newline r0) as [[e0|l] r1]; cbn [fst snd];
      [intros _; repeat split | discriminate].
  - match goal with
    | |- context [bind ?m ?k r0] =>
        destruct (bind m k r0) as [[e0|[[ch ln] pl]] r1]
    end; [intros _; repeat split|].
    destruct ((byteZ ch =? 0) && (12 <=? len pl));
      [destruct (processRTPPacket pl (set_reader r1 c) a)|];
      cbn [fst snd]; discriminate.
Qed.

Lemma readInterleavedFrame_error_changes_nothing_witness :
  let c := NewClient [x24; x00; x00; x0c; x80] in
  let a := mkAggregator 1 0 0 in
  let c' := snd (fst (readInterleavedFrame c a)) in
  tracker c' = tracker c
  /\ packetsRcvd c' = packetsRcvd c
  /\ bytesReceived c' = bytesReceived c
  /\ snd (readInterleavedFrame c a) = a.
Proof.
  apply (readInterleavedFrame_error_changes_nothing
           (NewClient [x24; x00; x00; x0c; x80])
           (mkAggregator 1 0 0) ErrUnexpectedEOF).
  reflexivity.
Defined.

(** ** Interleaved stream: resynchronisation and framing *)

Lemma Byte_eqb_refl b : Byte.eqb b b = true.
Proof. apply Byte.byte_dec_lb. reflexivity. Qed.

Lemma Byte_eqb_neq b d : b <> d -> Byte.eqb b d = false.
Proof.
  intros H. destruct (Byte.eqb b d) eqn:E; [|reflexivity].
  apply Byte.byte_dec_bl in E. contradiction.
Qed.

Lemma ReadString_line delim line rest :
  ~ In delim line ->
  ReadString delim (line ++ delim :: rest) = (inr (line ++ [delim]), rest).
Proof.
  induction line as [|b line IH]; intros H; cbn [app ReadString].
  - rewrite Byte_eqb_refl. reflexivity.
  - rewrite Byte_eqb_neq by (intros E; apply H; left; exact E).
    rewrite IH by (intros E; apply H; right; exact E). reflexivity.
Qed.

(** X: anything that does not start with '$' is skipped up to the end of
    its line. When the next byte is not '$', [readInterleavedFrame] consumes
    that byte and everything up to and including the next newline, returns
    no error, and leaves the tracker, the counters and the aggregator
    untouched; the reader stands right after the newline. *)
Theorem readInterleavedFrame_skips_line
  (c : Client) (a : Aggregator) (b : byte) (line rest : list byte) :
  reader c = b :: line ++ newline :: rest ->
  b <> magicByte ->
  ~ In newline line ->
  readInterleavedFrame c a = (None, set_reader rest c, a).
Proof.
  intros Hr Hb Hl. unfold readInterleavedFrame. rewrite Hr.
  cbn [ReadByte]. rewrite (Byte_eqb_neq _ _ Hb). cbn [negb].
  rewrite (ReadString_line newline line rest Hl). reflexivity.
Qed.

Lemma readInterleavedFrame_skips_line_witness :
  readInterleavedFrame
    (NewClient (x52 :: [x54; x53; x50; x0d] ++ newline :: [x24; x00]))
    NewAggregator
  = (None,
     set_reader [x24; x00]
       (NewClient (x52 :: [x54; x53; x50; x0d] ++ newline :: [x24; x00])),
     NewAggregator).
Proof.
  apply (readInterleavedFrame_skips_line
           (NewClient (x52 :: [x54; x53; x50; x0d] ++ newline :: [x24; x00]))
           NewAggregator x52 [x54; x53; x50; x0d] [x24; x00]).
  - reflexivity.
  - discriminate.
  - cbn. intros [H|[H|[H|[H|[]]]]]; discriminate.
Defined.

(** The sixteen-bit value of two bytes, high byte first. *)
Lemma land_shiftl8_byte a b :
  0 <= b < 256 -> Z.land (Z.shiftl a 8) b = 0.
Proof.
  intros Hb. apply Z.bits_inj'. intros n Hn.
  rewrite Z.land_spec, Z.bits_0.
  destruct (Z.lt_ge_cases n 8) as [Hlt|Hge].
  - rewrite Z.shiftl_spec_low by exact Hlt. reflexivity.
  - assert (Eb : Z.testbit b n = false).
    { destruct (Z.eq_dec b 0) as [->|Hnz]; [apply Z.bits_0|].
      apply Z.bits_above_log2; [lia|].
      assert (Z.log2 b < 8) by (apply Z.log2_lt_pow2; lia). lia. }
    rewrite Eb. apply andb_false_r.
Qed.

Lemma BigEndianUint16_value b0 b1 :
  BigEndianUint16 b0 b1 = byteZ b0 * 256 + byteZ b1.
Proof.
  unfold BigEndianUint16.
  pose proof (byteZ_range b1) as H1.
  rewrite <- Z.lxor_lor by (apply land_shiftl8_byte; exact H1).
  rewrite <- Z.add_nocarry_lxor by (apply land_shiftl8_byte; exact H1).
  rewrite Z.shiftl_mul_pow2 by lia. reflexivity.
Qed.

Lemma byteZ_byteOfZ z : byteZ (byteOfZ z) = z mod 256.
Proof.
  unfold byteZ, byteOfZ.
  assert (Hm : 0 <= z mod 256 < 256) by (apply Z.mod_pos_bound; lia).
  destruct (Byte.of_N (Z.to_N (z mod 256))) as [b|] eqn:E.
  - apply Byte.to_of_N in E. rewrite E. apply Z2N.id. lia.
  - apply Byte.of_N_None_iff in E. lia.
Qed.

Lemma frame_length_roundtrip n :
  0 <= n < 0x10000 ->
  BigEndianUint16 (byteOfZ (n / 256)) (byteOfZ n) = n.
Proof.
  intros H. rewrite BigEndianUint16_value, !byteZ_byteOfZ.
  assert (Hq : 0 <= n / 256 < 256).
  { split; [apply Z.div_pos; lia | apply Z.div_lt_upper_bound; lia]. }
  rewrite (Z.mod_small (n / 256)) by exact Hq.
  pose proof (Z.div_mod n 256). lia.
Qed.

(** The statistics [processRTPPacket] produces depend on the tracker and the
    packet counter only. *)
Lemma processRTPPacket_congr d c1 c2 a :
  tracker c1 = tracker c2 ->
  packetsRcvd c1 = packetsRcvd c2 ->
  tracker (fst (processRTPPacket d c1 a))
  = tracker (fst (processRTPPacket d c2 a))
  /\ packetsRcvd (fst (processRTPPacket d c1 a))
     = packetsRcvd (fst (processRTPPacket d c2 a))
  /\ snd (processRTPPacket d c1 a) = snd (processRTPPacket d c2 a).
Proof.
  intros Ht Hp. unfold processRTPPacket.
  destruct (len d <? 12); [cbn [fst snd]; auto|].
  rewrite Ht, Hp. destruct (Push (tracker c2) _) as [t nlost].
  cbn [fst snd tracker packetsRcvd]. auto.
Qed.

Lemma runTCP_frames_as_datagrams ps : forall flags ct cu a rest,
  length flags = length ps ->
  Forall (fun p => len p < 0x10000) ps ->
  tracker ct = tracker cu ->
  packetsRcvd ct = packetsRcvd cu ->
  reader ct = concat (map (frameOf x00) ps) ++ rest ->
  let r := runTCP (map ReadFrame flags) ct a in
  let u := runUDP ps cu a in
  fst (fst r) = CtxDone
  /\ reader (snd (fst r)) = rest
  /\ tracker (snd (fst r)) = tracker (fst u)
  /\ packetsRcvd (snd (fst r)) = packetsRcvd (fst u)
  /\ snd r = snd u.
Proof.
  induction ps as [|p ps IH]; intros flags ct cu a rest Hn HF Ht Hp Hr r u.
  - destruct flags as [|f flags]; [|discriminate Hn].
    subst r u. cbn in Hr |- *. unfold reportStats. rewrite Ht.
    repeat split; auto.
  - destruct flags as [|f flags]; [discriminate Hn|].
    cbn [length] in Hn. injection Hn as Hn.
    inversion HF as [|? ? Hlen HF']; subst.
    subst r u. cbn [map runTCP].
    assert (Hl0 : 0 <= len p) by (unfold len; lia).
    assert (Hfr : reader ct
                  = interleavedFrame x00 (byteOfZ (len p / 256))
                      (byteOfZ (len p)) p
                    ++ (concat (map (frameOf x00) ps) ++ rest)).
    { rewrite Hr. cbn [map concat]. unfold frameOf.
      rewrite <- app_assoc. reflexivity. }
    rewrite (readInterleavedFrame_frame ct a x00 _ _ p _ Hfr)
      by (symmetry; apply frame_length_roundtrip; lia).
    change (byteZ x00 =? 0) with true. cbn [andb].
    unfold runUDP, receiveDatagrams. cbn [fold_left fst snd].
    fold (receiveDatagrams ps).
    destruct (12 <=? len p).
    + rewrite processRTPPacket_set_reader. cbn [fst snd].
      destruct (processRTPPacket_congr p ct cu a Ht Hp) as (Et & Ep & Ea).
      destruct (processRTPPacket p ct a) as [ct1 at1].
      destruct (processRTPPacket p cu a) as [cu1 au1].
      cbn [fst snd] in *. subst au1.
      apply (IH flags _ cu1 at1 rest Hn HF');
        cbn [tracker packetsRcvd reader set_reader]; auto.
    + cbn [fst snd].
      apply (IH flags _ cu a rest Hn HF');
        cbn [tracker packetsRcvd reader set_reader]; auto.
Qed.

(** X: the TCP path counts like the UDP path. A connection that carries the
    packets [ps] as interleaved frames on channel 0 (each shorter than
    2^16), read frame by frame (one read per frame, whatever the context
    says after each) and left when the context is done, ends with the same
    tracker, the same packet count and the same aggregator as the same
    packets received as datagrams; every frame is consumed whole and the
    reader stands at what follows. *)
Theorem tcp_frames_counted_like_datagrams
  (ps : list (list byte)) (flags : list bool) (rest : list byte)
  (a0 : Aggregator) :
  length flags = length ps ->
  Forall (fun p => len p < 0x10000) ps ->
  let r := runTCP (map ReadFrame flags)
                  (NewClient (concat (map (frameOf x00) ps) ++ rest)) a0 in
  let u := runUDP ps (NewClient []) a0 in
  fst (fst r) = CtxDone
  /\ reader (snd (fst r)) = rest
  /\ tracker (snd (fst r)) = tracker (fst u)
  /\ packetsRcvd (snd (fst r)) = packetsRcvd (fst u)
  /\ snd r = snd u.
Proof.
  intros Hn HF.
  apply (runTCP_frames_as_datagrams ps flags
           (NewClient (concat (map (frameOf x00) ps) ++ rest))
           (NewClient []) a0 rest Hn HF); reflexivity.
Qed.

Lemma tcp_frames_counted_like_datagrams_witness :
  let ps := [rtpPacket x00 x64; [x80; x60]; rtpPacket x00 x69] in
  let flags := [false; false; true] in
  let r := runTCP (map ReadFrame flags)
                  (NewClient (concat (map (frameOf x00) ps) ++ [x24]))
                  NewAggregator in
  let u := runUDP ps (NewClient []) NewAggregator in
  fst (fst r) = CtxDone
  /\ reader (snd (fst r)) = [x24]
  /\ tracker (snd (fst r)) = tracker (fst u)
  /\ packetsRcvd (snd (fst r)) = packetsRcvd (fst u)
  /\ snd r = snd u.
Proof.
  apply (tcp_frames_counted_like_datagrams
           [rtpPacket x00 x64; [x80; x60]; rtpPacket x00 x69]
           [false; false; true] [x24] NewAggregator).
  - reflexivity.
  - repeat constructor.
Defined.

(** ** Controller ticks *)

(** X: one tick of the controller never overshoots. For session counts
    within int64, [adjustConnections] spawns only below the target, at most
    50 sessions, and asks [removeConnections] only above it, for at most 20
    sessions, never more than the distance to the target, and does nothing
    at the target. *)
Theorem adjustConnections_never_overshoots (current target : Z) :
  0 <= current <= maxInt64 ->
  0 <= target <= maxInt64 ->
  match adjustConnections current target with
  | Spawn toAdd =>
      current < target /\ 0 < toAdd <= 50 /\ toAdd <= target - current
  | Cancel toRemove =>
      target < current /\ 0 < toRemove <= 20
      /\ toRemove <= current - target
  | NoChange => current = target
  end.
Proof.
  intros Hc Ht. unfold adjustConnections.
  unfold maxInt64 in *.
  rewrite (wrapInt64_small (target - current))
    by (unfold minInt64, maxInt64; lia).
  destruct (Z.ltb_spec 0 (target - current)).
  - destruct (Z.ltb_spec 50 (target - current)); lia.
  - destruct (Z.ltb_spec (target - current) 0); [|lia].
    rewrite wrapInt64_small by (unfold minInt64, maxInt64; lia).
    destruct (Z.ltb_spec 20 (- (target - current))); lia.
Qed.

Lemma adjustConnections_never_overshoots_witness :
  match adjustConnections 480 350 with
  | Spawn toAdd =>
      480 < 350 /\ 0 < toAdd <= 50 /\ toAdd <= 350 - 480
  | Cancel toRemove =>
      350 < 480 /\ 0 < toRemove <= 20
      /\ toRemove <= 480 - 350
  | NoChange => 480 = 350
  end.
Proof.
  apply (adjustConnections_never_overshoots 480 350);
    vm_compute; split; discriminate.
Defined.

(** Ticks of the controller: below the target, above it, at it, and at the
    one difference whose negation overflows, where [removeConnections] is
    called with a negative count and cancels nothing. *)
Example adjustConnections_ticks :
  adjustConnections 350 480 = Spawn 50
  /\ adjustConnections 480 350 = Cancel 20
  /\ adjustConnections 480 470 = Cancel 10
  /\ adjustConnections 480 480 = NoChange
  /\ adjustConnections 0 minInt64 = Cancel minInt64
  /\ removeConnections minInt64 [1; 2; 3] = ([], [1; 2; 3]).
Proof. repeat split; reflexivity. Qed.

(** X: the upper bound wins. The stored target never exceeds [maxTarget];
    it is at least [minTarget] when the two bounds are in order, and when
    they are not (a negative variance) it is [maxTarget] whatever the hour
    and the draw. *)
Theorem adjustTargetLoad_upper_bound_wins
  (cfg : Config) (hour : Z) (rnd : float) :
  adjustTargetLoad cfg hour rnd <= maxTarget cfg
  /\ (minTarget cfg <= maxTarget cfg ->
      minTarget cfg <= adjustTargetLoad cfg hour rnd)
  /\ (maxTarget cfg < minTarget cfg ->
      adjustTargetLoad cfg hour rnd = maxTarget cfg).
Proof.
  unfold adjustTargetLoad.
  set (raw := int64_of_float64 _).
  destruct (Z.ltb_spec raw (minTarget cfg));
    match goal with
    | |- context [?a <? ?b] => destruct (Z.ltb_spec a b)
    end; repeat split; intros; lia.
Qed.

(** X: the semaphore always has between 1 000 and 50 000 slots, and exactly
    10 000 up to 10 000 readers. *)
Theorem semaphoreCap_bounds (cfg : Config) :
  1000 <= semaphoreCap (NewRunner cfg) <= 50000
  /\ (Readers cfg <= 10000 -> semaphoreCap (NewRunner cfg) = 10000)
  /\ (500000 <= Readers cfg -> semaphoreCap (NewRunner cfg) = 50000).
Proof.
  rewrite NewRunner_semaphoreCap.
  destruct (Z.ltb_spec 10000 (Readers cfg)) as [Hn|Hn].
  - rewrite Z.quot_div_nonneg by lia.
    assert (H1 : 1000 <= Readers cfg / 10)
      by (apply Z.div_le_lower_bound; lia).
    destruct (Z.ltb_spec 50000 (Readers cfg / 10)) as [Hq|Hq].
    + repeat split; intros; lia.
    + repeat split; try lia. intros Hbig.
      assert (50000 <= Readers cfg / 10)
        by (apply Z.div_le_lower_bound; lia). lia.
  - repeat split; intros; lia.
Qed.

(** X: [removeConnections] cancels the first [count] connections the map
    iteration yields, all of them when there are fewer, none when [count]
    is not positive; the others stay. *)
Theorem removeConnections_count {A : Type} (count : Z) (conns : list A) :
  let cancelled := fst (removeConnections count conns) in
  let kept := snd (removeConnections count conns) in
  cancelled ++ kept = conns
  /\ Z.of_nat (length cancelled)
     = Z.min (Z.max 0 count) (Z.of_nat (length conns)).
Proof.
  unfold removeConnections.
  assert (G : forall (l : list A) removed,
            fst (removeLoop count removed l) ++ snd (removeLoop count removed l) = l
            /\ Z.of_nat (length (fst (removeLoop count removed l)))
               = Z.min (Z.max 0 (count - removed)) (Z.of_nat (length l))).
  { induction l as [|c l IH]; intros removed.
    - cbn. split; [reflexivity | lia].
    - cbn [removeLoop]. destruct (Z.leb_spec count removed).
      + cbn [fst snd app length]. split; [reflexivity | lia].
      + destruct (IH (removed + 1)) as [E1 E2].
        destruct (removeLoop count (removed + 1) l) as [cs ks].
        cbn [fst snd app length] in *. split; [f_equal; exact E1|].
        rewrite !Nat2Z.inj_succ. lia. }
  cbv zeta.
  destruct (G conns 0) as [E1 E2]. rewrite Z.sub_0_r in E2. auto.
Qed.

(** ** Establishing a connection *)

(** X: three attempts, two sleeps. [runConnection] gives up (and counts a
    failure) exactly when three attempts in a row fail; on the way it has
    slept 100 ms and then 200 ms. No other sleep occurs: the sleeps made are
    none, 100 ms, or 100 ms and 200 ms, and a 400 ms sleep never happens. A
    session that goes on did so on a successful attempt. *)
Theorem establishConnection_backoff (env : Z -> attempt) :
  let r := fst (establishConnection env) in
  let sleeps := snd (establishConnection env) in
  (sleeps = [] \/ sleeps = [100 * Millisecond]
   \/ sleeps = [100 * Millisecond; 200 * Millisecond])
  /\ (r = GaveUp <->
      isFailure (env 0) && isFailure (env 1) && isFailure (env 2) = true)
  /\ (r = GaveUp -> sleeps = [100 * Millisecond; 200 * Millisecond])
  /\ (r = Established -> env (Z.of_nat (length sleeps)) = Connects).
Proof.
  cbv zeta. unfold establishConnection. cbn [retryLoop].
  change (0 <? maxRetries) with true. change (0 =? maxRetries - 1) with false.
  change (0 + 1) with 1.
  change (1 <? maxRetries) with true. change (1 =? maxRetries - 1) with false.
  change (1 + 1) with 2.
  change (2 <? maxRetries) with true. change (2 =? maxRetries - 1) with true.
  change (backoff 0) with (100 * Millisecond).
  change (backoff 1) with (200 * Millisecond).
  cbv iota.
  destruct (env 0) eqn:E0; cbn [fst snd isFailure andb length Z.of_nat];
    try (rewrite ?E0; repeat split; auto; try discriminate; intros [? ?]; discriminate);
  destruct (env 1) eqn:E1; cbn [fst snd isFailure andb length Z.of_nat Pos.of_succ_nat Pos.succ];
    try (rewrite ?E1; repeat split; auto; try discriminate; intros [? ?]; discriminate);
  destruct (env 2) eqn:E2; cbn [fst snd isFailure andb length Z.of_nat Pos.of_succ_nat Pos.succ];
    rewrite ?E2; repeat split; auto; try discriminate.
Qed.

(** ** Latency bookkeeping *)

Lemma wrapInt64_add_l a b : wrapInt64 (wrapInt64 a + b) = wrapInt64 (a + b).
Proof.
  unfold wrapInt64. f_equal.
  replace (a + b + 0x8000000000000000)
    with ((a + 0x8000000000000000) + b) by ring.
  rewrite <- (Zplus_mod_idemp_l (a + 0x8000000000000000) b).
  f_equal. ring.
Qed.

Lemma recordAll_cons x samples l :
  recordAll (x :: samples) l = recordAll samples (recordLatency x l).
Proof. reflexivity. Qed.

Lemma recordAll_min_max samples : forall l,
  let r := recordAll samples l in
  minLatency r <= minLatency l
  /\ maxLatency l <= maxLatency r
  /\ Forall (fun x => minLatency r <= x <= maxLatency r) samples.
Proof.
  induction samples as [|x samples IH]; intros l r; subst r.
  - cbn. repeat split; try lia. constructor.
  - rewrite recordAll_cons.
    destruct (IH (recordLatency x l)) as (Hmin & Hmax & HF).
    cbn [recordLatency minLatency maxLatency] in Hmin, Hmax.
    destruct (Z.leb_spec (minLatency l) x);
      destruct (Z.leb_spec x (maxLatency l));
      (split; [lia|]; split; [lia|]; constructor; [lia | exact HF]).
Qed.

Lemma recordAll_buffer samples : forall l,
  latencies (recordAll samples l)
  = latencies l
    ++ map float64_of_Z
         (firstn (Z.to_nat 10000 - length (latencies l)) samples).
Proof.
  induction samples as [|x samples IH]; intros l.
  - cbn [recordAll fold_left]. rewrite firstn_nil. cbn [map].
    symmetry. apply app_nil_r.
  - rewrite recordAll_cons, IH. cbn [recordLatency latencies].
    unfold len_lt_10000.
    destruct (Z.ltb_spec (Z.of_nat (length (latencies l))) 10000) as [Hlt|Hge].
    + rewrite length_app. cbn [length].
      assert (E : (Z.to_nat 10000 - length (latencies l)
                   = S (Z.to_nat 10000 - (length (latencies l) + 1)))%nat)
        by lia.
      rewrite E. cbn [firstn map]. rewrite <- app_assoc. reflexivity.
    + assert (E : (Z.to_nat 10000 - length (latencies l) = 0)%nat) by lia.
      rewrite E. cbn [firstn map]. reflexivity.
Qed.

Lemma recordAll_sums samples : forall l,
  wrapInt64 (connectCount (recordAll samples l))
  = wrapInt64 (connectCount l + Z.of_nat (length samples))
  /\ wrapInt64 (connectLatency (recordAll samples l))
     = wrapInt64 (connectLatency l + sumZ samples).
Proof.
  induction samples as [|x samples IH]; intros l.
  - cbn [recordAll fold_left length sumZ fold_right Z.of_nat].
    rewrite !Z.add_0_r. auto.
  - rewrite recordAll_cons. destruct (IH (recordLatency x l)) as [E1 E2].
    rewrite E1, E2. cbn [recordLatency connectCount connectLatency].
    rewrite !wrapInt64_add_l. cbn [length sumZ fold_right].
    fold (sumZ samples). rewrite Nat2Z.inj_succ.
    split; f_equal; ring.
Qed.

(** X: what the latency bookkeeping holds after any number of connections.
    Starting from the runner's initial values and recording the connect
    latencies [samples] one after the other: every sample lies between
    [minLatency] and [maxLatency]; [minLatency] is at most the sentinel
    99999999 and [maxLatency] at least 0; the sample buffer holds the first
    10 000 samples, in order, and never more; count and sum are those of
    the samples (on int64). *)
Theorem recordAll_summary (samples : list Z) :
  let r := recordAll samples NewLatency in
  Forall (fun x => minLatency r <= x <= maxLatency r) samples
  /\ minLatency r <= 99999999
  /\ 0 <= maxLatency r
  /\ latencies r = map float64_of_Z (firstn (Z.to_nat 10000) samples)
  /\ Z.of_nat (length (latencies r)) <= 10000
  /\ wrapInt64 (connectCount r) = wrapInt64 (Z.of_nat (length samples))
  /\ wrapInt64 (connectLatency r) = wrapInt64 (sumZ samples).
Proof.
  intros r. subst r.
  destruct (recordAll_min_max samples NewLatency) as (Hmin & Hmax & HF).
  destruct (recordAll_sums samples NewLatency) as (Hc & Hs).
  pose proof (recordAll_buffer samples NewLatency) as Hb.
  cbn [NewLatency minLatency maxLatency latencies connectCount connectLatency
       app length] in Hmin, Hmax, Hc, Hs, Hb.
  rewrite Nat.sub_0_r in Hb.
  repeat split; try assumption.
  rewrite Hb, length_map.
  pose proof (firstn_le_length (Z.to_nat 10000) samples).
  pose proof (length_firstn (Z.to_nat 10000) samples). lia.
Qed.

(** ** Closing a client *)

(** X: [Close] on a client with a session never returns. With the mutex
    free, the client not yet closed, a session id stored and the connection
    set, [Close] takes the mutex and marks the client closed, and its
    TEARDOWN then waits in [sendRequestWithResponse] for the mutex [Close]
    itself holds. At that point nothing has been written to the connection,
    no socket has been closed, and the mutex stays held, so a later
    keep-alive waits as well. This holds whatever the server would do. *)
Theorem Close_with_session_never_returns
  (writeOK responseOK : Control -> Request -> bool) (st : Control) :
  muHeld st = false ->
  closed st = false ->
  session st <> [] ->
  connSet st = true ->
  exists st',
    Close writeOK responseOK st = Blocks st'
    /\ wire st' = wire st
    /\ connClosed st' = connClosed st
    /\ rtpClosed st' = rtpClosed st
    /\ closed st' = true
    /\ muHeld st' = true
    /\ sendKeepAlive writeOK responseOK st'
       = Blocks (set_cseq (wrapInt64 (cseq st' + 1)) st').
Proof.
  intros Hm Hc Hs Hn. unfold Close. rewrite Hm.
  cbn [closed set_muHeld set_closed session connSet]. rewrite Hc, Hn.
  destruct (session st) as [|b sess] eqn:Es; [contradiction|].
  unfold sendTeardown.
  cbn [session set_closed set_muHeld buildRequest sendRequest
       sendRequestWithResponse muHeld set_cseq].
  rewrite Es.
  cbn [session set_closed set_muHeld buildRequest sendRequest
       sendRequestWithResponse muHeld set_cseq].
  eexists. split; [reflexivity|].
  cbn [wire connClosed rtpClosed closed muHeld].
  repeat split.
Qed.

Lemma Close_with_session_never_returns_witness :
  exists st',
    Close (fun _ _ => true) (fun _ _ => true)
          (mkControl false [x31; x32] 5 false true false false [] false false false)
    = Blocks st'
    /\ wire st' = []
    /\ connClosed st' = false
    /\ rtpClosed st' = false
    /\ closed st' = true
    /\ muHeld st' = true
    /\ sendKeepAlive (fun _ _ => true) (fun _ _ => true) st'
       = Blocks (set_cseq (wrapInt64 (cseq st' + 1)) st').
Proof.
  apply (Close_with_session_never_returns (fun _ _ => true) (fun _ _ => true)
           (mkControl false [x31; x32] 5 false true false false [] false false false)).
  - reflexivity.
  - reflexivity.
  - discriminate.
  - reflexivity.
Defined.

(** X: [Close] never sends TEARDOWN. Whatever the state and the server,
    [Close] writes nothing to the connection. When it returns, it returns
    nil and leaves the client closed with the mutex free, and that happens
    only if the client was already closed or has no session or no
    connection; a second [Close] then changes nothing. *)
Theorem Close_never_sends_teardown
  (writeOK responseOK : Control -> Request -> bool) (st : Control) :
  wire (stateOf (Close writeOK responseOK st)) = wire st
  /\ (forall e st1,
        Close writeOK responseOK st = Returns e st1 ->
        e = None
        /\ closed st1 = true
        /\ muHeld st1 = false
        /\ (closed st = true \/ session st = [] \/ connSet st = false)
        /\ Close writeOK responseOK st1 = Returns None st1).
Proof.
  unfold Close. destruct (muHeld st) eqn:Hm.
  - split; [reflexivity | intros e st1 H; discriminate].
  - cbn [closed set_muHeld]. destruct (closed st) eqn:Hc.
    + split; [reflexivity|]. intros e st1 H. inversion H; subst.
      cbn [muHeld set_muHeld closed]. rewrite Hc.
      repeat split; auto.
    + cbn [session set_closed set_muHeld connSet].
      destruct (session st) as [|b sess] eqn:Es.
      * split; [reflexivity|]. intros e st1 H. inversion H; subst.
        cbn [muHeld closed set_muHeld closeSockets set_closed].
        repeat split; auto.
      * destruct (connSet st) eqn:Hn.
        -- unfold sendTeardown.
           cbn [session set_closed set_muHeld]. rewrite Es.
           cbn [buildRequest sendRequest sendRequestWithResponse muHeld
                set_cseq set_closed set_muHeld stateOf wire].
           split; [reflexivity | intros e st1 H; discriminate].
        -- split; [reflexivity|]. intros e st1 H. inversion H; subst.
           cbn [muHeld closed set_muHeld closeSockets set_closed].
           repeat split; auto.
Qed.

(** ** Aggregator *)

(** X: the order of the aggregator's updates does not matter. Any two of
    [AddPackets], [AddLoss] and [AddBytes] commute, on the same counter or
    on different ones, and adding 0 changes nothing. *)
Theorem Aggregator_adds_commute (n m : Z) (a : Aggregator) :
  AddPackets n (AddPackets m a) = AddPackets m (AddPackets n a)
  /\ AddLoss n (AddLoss m a) = AddLoss m (AddLoss n a)
  /\ AddBytes n (AddBytes m a) = AddBytes m (AddBytes n a)
  /\ AddPackets n (AddLoss m a) = AddLoss m (AddPackets n a)
  /\ AddPackets n (AddBytes m a) = AddBytes m (AddPackets n a)
  /\ AddLoss n (AddBytes m a) = AddBytes m (AddLoss n a)
  /\ AddPackets 0 a = a /\ AddLoss 0 a = a /\ AddBytes 0 a = a.
Proof.
  unfold AddPackets, AddLoss, AddBytes.
  assert (E : forall x, wrap64 (wrap64 (x + m) + n) = wrap64 (wrap64 (x + n) + m)).
  { intros x. rewrite !wrap64_add_l. f_equal. ring. }
  destruct (0 <? n), (0 <? m); cbn [packets lost bytes Z.ltb Z.compare];
    rewrite ?E; repeat split; reflexivity.
Qed.

(** ** Sequence tracker: the distance of exactly half the range *)

(** X: a jump of exactly 0x8000 is booked as a wrap with a large loss. On an
    initialized tracker, a pushed number at 16-bit distance 0x8000 from
    [lastSeq] takes neither the forward nor the backward branch: [cycles]
    goes up by one and the loss returned is 0x10000 - lastSeq + seq - 1,
    that is 98303 when [lastSeq] is below 0x8000 and 32767 otherwise. *)
Theorem push_half_range_books_a_wrap (s : SeqTracker) (seq : Z) :
  initialized s = true ->
  0 <= lastSeq s < 0x10000 ->
  0 <= seq < 0x10000 ->
  wrap16 (seq - lastSeq s) = 0x8000 ->
  snd (Push s seq) = (if lastSeq s <? 0x8000 then 98303 else 32767)
  /\ cycles (fst (Push s seq)) = wrap32 (cycles s + 1)
  /\ lastSeq (fst (Push s seq)) = seq
  /\ totalLost (fst (Push s seq)) = wrap64 (totalLost s + snd (Push s seq)).
Proof.
  intros Hi Hl Hq Hd.
  assert (Hb : wrap16 (lastSeq s - seq) = 0x8000).
  { rewrite wrap16_opp by (rewrite Hd; discriminate). rewrite Hd. reflexivity. }
  assert (Hcase : (lastSeq s < 0x8000 /\ seq = lastSeq s + 0x8000)
                  \/ (0x8000 <= lastSeq s /\ seq = lastSeq s - 0x8000)).
  { unfold wrap16 in Hd. Z.div_mod_to_equations. lia. }
  unfold Push, updateSequence. rewrite Hi, Hd, Hb.
  change (0x8000 <? 0x8000) with false. cbv iota.
  assert (Ha : wrap32 (0x10000 - lastSeq s + seq)
               = if lastSeq s <? 0x8000 then 98304 else 32768).
  { destruct Hcase as [[H1 H2]|[H1 H2]]; subst seq.
    - replace (0x10000 - lastSeq s + (lastSeq s + 0x8000)) with 98304 by ring.
      destruct (Z.ltb_spec (lastSeq s) 0x8000); [reflexivity | lia].
    - replace (0x10000 - lastSeq s + (lastSeq s - 0x8000)) with 32768 by ring.
      destruct (Z.ltb_spec (lastSeq s) 0x8000); [lia | reflexivity]. }
  rewrite Ha.
  destruct (lastSeq s <? 0x8000); tracker_simpl; repeat split.
Qed.

Lemma push_half_range_books_a_wrap_witness :
  let s := pushAll [100] NewSeqTracker in
  snd (Push s 32868) = (if lastSeq s <? 0x8000 then 98303 else 32767)
  /\ cycles (fst (Push s 32868)) = wrap32 (cycles s + 1)
  /\ lastSeq (fst (Push s 32868)) = 32868
  /\ totalLost (fst (Push s 32868)) = wrap64 (totalLost s + snd (Push s 32868)).
Proof.
  apply (push_half_range_books_a_wrap (pushAll [100] NewSeqTracker) 32868).
  - reflexivity.
  - vm_compute. split; [discriminate | reflexivity].
  - lia.
  - reflexivity.
Defined.

(** ** Headers of a response *)

Lemma Split_line sep l rest :
  ~ In sep l -> Split sep (l ++ sep :: rest) = l :: Split sep rest.
Proof.
  induction l as [|b l IH]; intros H; cbn [app Split].
  - rewrite Byte_eqb_refl. reflexivity.
  - rewrite Byte_eqb_neq by (intros E; apply H; left; exact E).
    rewrite IH by (intros E; apply H; right; exact E). reflexivity.
Qed.

Lemma Split_lines sep ls rest :
  Forall (fun l => ~ In sep l) ls ->
  Split sep (concat (map (fun l => l ++ [sep]) ls) ++ rest)
  = ls ++ Split sep rest.
Proof.
  induction 1 as [|l ls Hl _ IH]; [reflexivity|].
  cbn [map concat app]. rewrite <- !app_assoc. cbn [app].
  rewrite Split_line by exact Hl. rewrite IH. reflexivity.
Qed.

Lemma findHeader_skip key ls more :
  Forall (fun l => HasPrefix (ToLower l) key = false) ls ->
  findHeader (ls ++ more) key = findHeader more key.
Proof.
  induction 1 as [|l ls Hl _ IH]; [reflexivity|].
  cbn [app findHeader]. rewrite Hl. exact IH.
Qed.

Lemma HasPrefix_app p r : HasPrefix (p ++ r) p = true.
Proof.
  induction p as [|b p IH]; [destruct r; reflexivity|].
  cbn [app HasPrefix]. rewrite Byte_eqb_refl, IH. reflexivity.
Qed.

Lemma SplitN2_first sep n r :
  ~ In sep n -> SplitN2 sep (n ++ sep :: r) = (n, Some r).
Proof.
  induction n as [|b n IH]; intros H; cbn [app SplitN2].
  - rewrite Byte_eqb_refl. reflexivity.
  - rewrite Byte_eqb_neq by (intros E; apply H; left; exact E).
    rewrite IH by (intros E; apply H; right; exact E). reflexivity.
Qed.

Lemma trimLeft_spaces ws v :
  Forall (fun b => isSpace b = true) ws -> trimLeft (ws ++ v) = trimLeft v.
Proof.
  induction 1 as [|b ws Hb _ IH]; [reflexivity|].
  cbn [app trimLeft]. rewrite Hb. exact IH.
Qed.

Lemma trimLeft_nonspace v : isSpace (hd x00 v) = false -> trimLeft v = v.
Proof.
  destruct v as [|b v]; [reflexivity|]. cbn [hd trimLeft].
  intros H. rewrite H. reflexivity.
Qed.

Lemma hd_rev_last (v : list byte) : hd x00 (rev v) = last v x00.
Proof.
  induction v as [|x v _] using rev_ind; [reflexivity|].
  rewrite rev_app_distr, last_last. reflexivity.
Qed.

Lemma TrimSpace_padded ws1 v ws2 :
  Forall (fun b => isSpace b = true) ws1 ->
  Forall (fun b => isSpace b = true) ws2 ->
  isSpace (hd x00 v) = false ->
  isSpace (last v x00) = false ->
  TrimSpace (ws1 ++ v ++ ws2) = v.
Proof.
  intros H1 H2 Hh Hl. unfold TrimSpace.
  rewrite trimLeft_spaces by exact H1.
  destruct v as [|b v].
  - cbn [app]. rewrite <- (app_nil_r ws2), trimLeft_spaces by exact H2.
    reflexivity.
  - cbn [hd] in Hh. cbn [app trimLeft]. rewrite Hh.
    change (b :: v ++ ws2) with ((b :: v) ++ ws2).
    rewrite rev_app_distr.
    rewrite trimLeft_spaces
      by (apply Forall_rev; exact H2).
    rewrite trimLeft_nonspace by (rewrite hd_rev_last; exact Hl).
    apply rev_involutive.
Qed.

Lemma ToLower_app a b : ToLower (a ++ b) = ToLower a ++ ToLower b.
Proof. apply map_app. Qed.

(** The header line found and its value returned. *)
Lemma extractHeader_line before header name ws1 value ws2 post :
  Forall (fun l => ~ In newline l
                   /\ HasPrefix (ToLower l) (ToLower header ++ [colon]) = false)
         before ->
  ToLower name = ToLower header ->
  ~ In colon name ->
  ~ In newline (name ++ colon :: ws1 ++ value ++ ws2) ->
  Forall (fun b => isSpace b = true) ws1 ->
  Forall (fun b => isSpace b = true) ws2 ->
  isSpace (hd x00 value) = false ->
  isSpace (last value x00) = false ->
  extractHeader
    (concat (map (fun l => l ++ [newline]) before)
     ++ (name ++ colon :: ws1 ++ value ++ ws2) ++ newline :: post)
    header
  = value.
Proof.
  intros Hb Hn Hc Hnl H1 H2 Hh Hl. unfold extractHeader.
  rewrite Split_lines
    by (eapply Forall_impl; [|exact Hb]; cbv beta; tauto).
  rewrite findHeader_skip
    by (eapply Forall_impl; [|exact Hb]; cbv beta; tauto).
  rewrite Split_line by exact Hnl.
  cbn [findHeader].
  assert (Hp : HasPrefix (ToLower (name ++ colon :: ws1 ++ value ++ ws2))
                         (ToLower header ++ [colon]) = true).
  { rewrite ToLower_app, Hn.
    change (ToLower (colon :: ws1 ++ value ++ ws2))
      with ([colon] ++ ToLower (ws1 ++ value ++ ws2)).
    rewrite app_assoc. apply HasPrefix_app. }
  rewrite Hp, SplitN2_first by exact Hc.
  apply TrimSpace_padded; assumption.
Qed.

(** X: [extractHeader] returns the value of the first line that carries the
    header. In an ASCII response made of lines that do not start with the
    header name, then a line [name: value] (the name in any letter case,
    white space around the value, a carriage return before the newline),
    then anything, the result is the value without the surrounding white
    space, whatever follows that line. *)
Theorem extractHeader_finds_first_header
  (before : list (list byte)) (header name ws1 value ws2 post : list byte) :
  let line := name ++ colon :: ws1 ++ value ++ ws2 in
  let response :=
    concat (map (fun l => l ++ [newline]) before) ++ line ++ newline :: post in
  isASCII response ->
  Forall (fun l => ~ In newline l
                   /\ HasPrefix (ToLower l) (ToLower header ++ [colon]) = false)
         before ->
  ToLower name = ToLower header ->
  ~ In colon name ->
  ~ In newline line ->
  Forall (fun b => isSpace b = true) ws1 ->
  Forall (fun b => isSpace b = true) ws2 ->
  isSpace (hd x00 value) = false ->
  isSpace (last value x00) = false ->
  extractHeader response header = value.
Proof.
  intros line response _. subst line response.
  apply extractHeader_line.
Qed.

Lemma extractHeader_finds_first_header_witness :
  let before := [[x4f; x4b; x0d]] in
  let header := sessionName in
  let name := [x53; x45; x53; x53; x49; x4f; x4e] in
  let ws1 := [x20] in
  let value := [x31; x32; x3b; x74] in
  let ws2 := [x0d] in
  let post := [x0d; x0a] in
  let line := name ++ colon :: ws1 ++ value ++ ws2 in
  let response :=
    concat (map (fun l => l ++ [newline]) before) ++ line ++ newline :: post in
  extractHeader response header = value.
Proof.
  apply (extractHeader_finds_first_header
           [[x4f; x4b; x0d]] sessionName [x53; x45; x53; x53; x49; x4f; x4e]
           [x20] [x31; x32; x3b; x74] [x0d] [x0d; x0a]).
  - unfold isASCII. cbn [concat map app].
    repeat (constructor; [vm_compute; reflexivity|]). constructor.
  - constructor; [|constructor]. split; [|reflexivity].
    cbn [In]. intros [H|[H|[H|[]]]]; discriminate.
  - vm_compute. reflexivity.
  - cbn [In]. intros [H|[H|[H|[H|[H|[H|[H|[]]]]]]]]; discriminate.
  - cbn [In app].
    intros [H|[H|[H|[H|[H|[H|[H|[H|[H|[H|[H|[H|[H|[H|[]]]]]]]]]]]]]]];
      discriminate.
  - repeat constructor.
  - repeat constructor.
  - reflexivity.
  - reflexivity.
Defined.

Lemma last_app_nonempty (a b : list byte) d :
  b <> [] -> last (a ++ b) d = last b d.
Proof.
  intros Hb. induction a as [|x a IH]; [reflexivity|].
  cbn [app]. rewrite <- IH.
  destruct (a ++ b) eqn:E; [|reflexivity].
  destruct a; [cbn in E; contradiction | discriminate].
Qed.

Lemma Split_first sep l rest :
  ~ In sep l -> hd [] (Split sep (l ++ sep :: rest)) = l.
Proof. intros H. rewrite Split_line by exact H. reflexivity. Qed.

Lemma Split_none sep l : ~ In sep l -> Split sep l = [l].
Proof.
  induction l as [|b l IH]; intros H; cbn [Split]; [reflexivity|].
  rewrite Byte_eqb_neq by (intros E; apply H; left; exact E).
  rewrite IH by (intros E; apply H; right; exact E). reflexivity.
Qed.

Lemma notIn_forallb (b : byte) (l : list byte) :
  forallb (fun x => negb (Byte.eqb x b)) l = true -> ~ In b l.
Proof.
  induction l as [|x l IH]; cbn [forallb In]; intros H; [tauto|].
  apply andb_true_iff in H. destruct H as [Hx Hl].
  intros [E|E]; [|exact (IH Hl E)].
  subst x. rewrite Byte_eqb_refl in Hx. discriminate.
Qed.

Lemma isASCII_forallb (l : list byte) :
  forallb (fun b => byteZ b <? 128) l = true -> isASCII l.
Proof.
  intros H. apply Forall_forall. intros b Hb.
  rewrite forallb_forall in H. apply Z.ltb_lt. exact (H b Hb).
Qed.

(** X: the session id is the Session header up to the first ';'. When the
    first SETUP exchange returns without an error and its response carries a
    line [Session: id] or [Session: id;parameters] (name in any letter case,
    an optional carriage return before the newline) before any other line
    starting with that name, the client stores exactly [id]: the parameters
    are dropped. [id] is non-empty, has no ';' and no white space at its
    ends. When the exchange returns an error (a status of 400 or above
    among others), [sendSetup] returns it and the stored session stays what
    it was, whatever the response says. *)
Theorem sessionFromSetup_strips_parameters
  (before : list (list byte)) (name ws1 id params ws2 post old : list byte) :
  let value := id ++ params in
  let line := name ++ colon :: ws1 ++ value ++ ws2 in
  let response :=
    concat (map (fun l => l ++ [newline]) before) ++ line ++ newline :: post in
  isASCII response ->
  Forall (fun l => ~ In newline l
                   /\ HasPrefix (ToLower l) (ToLower sessionName ++ [colon])
                      = false)
         before ->
  ToLower name = ToLower sessionName ->
  ~ In colon name ->
  ~ In newline line ->
  Forall (fun b => isSpace b = true) ws1 ->
  Forall (fun b => isSpace b = true) ws2 ->
  id <> [] ->
  ~ In semicolon id ->
  isSpace (hd x00 id) = false ->
  isSpace (last id x00) = false ->
  params = [] \/ (hd x00 params = semicolon
                  /\ isSpace (last params x00) = false) ->
  sessionFromSetup response None old = (None, id)
  /\ (forall e, sessionFromSetup response (Some e) old = (Some e, old)).
Proof.
  intros value line response _ Hb Hn Hc Hnl H1 H2 Hid Hsemi Hh Hl Hp.
  split; [|intros e; reflexivity].
  subst line response value. unfold sessionFromSetup. f_equal.
  assert (Hv1 : isSpace (hd x00 (id ++ params)) = false).
  { destruct id; [contradiction | exact Hh]. }
  assert (Hv2 : isSpace (last (id ++ params) x00) = false).
  { destruct Hp as [->|[_ Hp]].
    - rewrite app_nil_r. exact Hl.
    - destruct params as [|p params].
      + rewrite app_nil_r. exact Hl.
      + rewrite last_app_nonempty by discriminate. exact Hp. }
  rewrite (extractHeader_line before sessionName name ws1 (id ++ params)
             ws2 post Hb Hn Hc Hnl H1 H2 Hv1 Hv2).
  assert (Hs : hd [] (Split semicolon (id ++ params)) = id).
  { destruct Hp as [->|[Hp _]].
    - rewrite app_nil_r, Split_none by exact Hsemi. reflexivity.
    - destruct params as [|p params].
      + rewrite app_nil_r, Split_none by exact Hsemi. reflexivity.
      + cbn [hd] in Hp. subst p. apply Split_first. exact Hsemi. }
  assert (Hne : id ++ params <> []).
  { destruct id; [contradiction | discriminate]. }
  destruct (id ++ params) as [|v0 v'] eqn:Ev; [contradiction|].
  rewrite Hs.
  transitivity (TrimSpace ([] ++ id ++ [])).
  - cbn [app]. rewrite app_nil_r. reflexivity.
  - apply TrimSpace_padded; auto.
Qed.

(** The response "RTSP/1.0 200 OK", "CSeq: 3", "Session: 12;timeout=60" and
    the empty line, each ended by CR LF. *)
Lemma sessionFromSetup_strips_parameters_witness :
  let before :=
    [[x52; x54; x53; x50; x2f; x31; x2e; x30; x20; x32; x30; x30; x20;
      x4f; x4b; x0d];
     [x43; x53; x65; x71; x3a; x20; x33; x0d]] in
  let name := sessionName in
  let ws1 := [x20] in
  let id := [x31; x32] in
  let params := [x3b; x74; x69; x6d; x65; x6f; x75; x74; x3d; x36; x30] in
  let ws2 := [x0d] in
  let post := [x0d; x0a] in
  let old := [] in
  let value := id ++ params in
  let line := name ++ colon :: ws1 ++ value ++ ws2 in
  let response :=
    concat (map (fun l => l ++ [newline]) before) ++ line ++ newline :: post in
  sessionFromSetup response None old = (None, id)
  /\ (forall e, sessionFromSetup response (Some e) old = (Some e, old)).
Proof.
  apply (sessionFromSetup_strips_parameters
           [[x52; x54; x53; x50; x2f; x31; x2e; x30; x20; x32; x30; x30; x20;
             x4f; x4b; x0d];
            [x43; x53; x65; x71; x3a; x20; x33; x0d]]
           sessionName [x20] [x31; x32]
           [x3b; x74; x69; x6d; x65; x6f; x75; x74; x3d; x36; x30] [x0d]
           [x0d; x0a] []).
  - apply isASCII_forallb. vm_compute. reflexivity.
  - constructor; [|constructor; [|constructor]];
      (split; [apply notIn_forallb|]); vm_compute; reflexivity.
  - reflexivity.
  - apply notIn_forallb. vm_compute. reflexivity.
  - apply notIn_forallb. vm_compute. reflexivity.
  - repeat constructor.
  - repeat constructor.
  - discriminate.
  - apply notIn_forallb. vm_compute. reflexivity.
  - reflexivity.
  - reflexivity.
  - right. split; reflexivity.
Defined.
